(** * syncscribe: caption assembly and timing

    A shallow embedding of the subtitle code of the repository:

    - [lib/SubtitleWriter.js]: the SRT and WebVTT timestamp formatters, the
      line splitter and the two track generators;
    - [shift-timing.js]: the SRT timestamp parser and formatter of the
      standalone shifting tool and its line loop;
    - [lib/Translator.js]: the request text of [_translateAllSegments] and
      the part that parses the model's answer and merges it with the
      original segments;
    - [lib/Transcriber.js]: [_processSegments].

    Conventions of the embedding.

    - A JavaScript string is the list of its UTF-16 code units ([list N]),
      so [length] is [String.prototype.length].
    - A finite double is the rational it holds.  A rational given as a
      literal or read from JSON stands for its Number value
      ([nearest_double]: round to nearest, ties to even, 53 bits, subnormal
      below [2^-1022]), and a product or a sum of doubles is the Number
      value of the exact result.  The two zeros are one value: nothing in
      this code tells them apart.
    - The numbers of the writer are integers once [Math.floor] has been
      applied to the product [seconds * 1000]; they are modelled in [Z].  A
      double holds every integer of magnitude below [2^53] exactly, and
      [%] and [Math.floor(a / b)] on such integers are exact, so on that
      range the model is the program.  Far beyond it (from [1e21] hours on,
      where [toString] turns to exponent notation, and from [2^1024] on,
      where the product is [Infinity]) the unbounded integers of the model
      are not the program's numbers.
    - The parser of the shifting tool computes in doubles, [NaN] and the
      infinities included ([double]).  Its formatter is modelled on [NaN]
      and on integers of magnitude at most [2^53] ([num]); a call of the
      formatter on another number (a fraction, an infinity, a larger
      integer) is reported as [Unmodelled], and nothing is claimed about
      it. *)

From Stdlib Require Import Ascii String.
From Stdlib Require Import ZArith NArith QArith Qround Qabs List Bool Lia.
Import ListNotations.

Local Open Scope Z_scope.
Local Open Scope list_scope.

(** ** JavaScript strings and the built-ins the code calls *)

Module JS.

Definition char := N.
Definition jstring := list char.

(** A string literal of the source, as code units. *)
Definition lit (s : String.string) : jstring :=
  List.map N_of_ascii (list_ascii_of_string s).

Definition SPACE : char := Eval cbv in N_of_ascii " ".
Definition COMMA : char := Eval cbv in N_of_ascii ",".
Definition PERIOD : char := Eval cbv in N_of_ascii ".".
Definition COLON : char := Eval cbv in N_of_ascii ":".
Definition NEWLINE : char := 10%N.
Definition MINUS : char := Eval cbv in N_of_ascii "-".
Definition PLUS : char := Eval cbv in N_of_ascii "+".
Definition ZERO : char := Eval cbv in N_of_ascii "0".
Definition LBRACKET : char := Eval cbv in N_of_ascii "[".
Definition RBRACKET : char := Eval cbv in N_of_ascii "]".

(** Truthiness of a string: only the empty string is falsy. *)
Definition truthy (s : jstring) : bool :=
  match s with [] => false | _ :: _ => true end.

Fixpoint eqb (s t : jstring) : bool :=
  match s, t with
  | [], [] => true
  | c :: s', d :: t' => (c =? d)%N && eqb s' t'
  | _, _ => false
  end.

(** [s.startsWith(p)] *)
Fixpoint startsWith (p s : jstring) : bool :=
  match p, s with
  | [], _ => true
  | c :: p', d :: s' => (c =? d)%N && startsWith p' s'
  | _ :: _, [] => false
  end.

(** [s.includes(p)] *)
Fixpoint includes (p s : jstring) : bool :=
  startsWith p s ||
  match s with
  | [] => false
  | _ :: s' => includes p s'
  end.

(** [s.split(sep)] for a separator of one code unit; the result always
    has at least one element, and [''.split(sep)] is [['']]. *)
Fixpoint split (sep : char) (s : jstring) : list jstring :=
  match s with
  | [] => [[]]
  | c :: s' =>
      if (c =? sep)%N then [] :: split sep s'
      else match split sep s' with
           | w :: ws => (c :: w) :: ws
           | [] => [[c]]
           end
  end.

(** [l.join(sep)] *)
Fixpoint join (sep : jstring) (l : list jstring) : jstring :=
  match l with
  | [] => []
  | x :: xs =>
      match xs with
      | [] => x
      | _ :: _ => x ++ sep ++ join sep xs
      end
  end.

(** WhiteSpace and LineTerminator code units: what [trim] strips, what
    [\s] matches and what [Number] skips around a literal. *)
Definition is_ws (c : char) : bool :=
  ((9 <=? c) && (c <=? 13) || (c =? 32) || (c =? 160) || (c =? 5760)
   || (8192 <=? c) && (c <=? 8202) || (c =? 8232) || (c =? 8233)
   || (c =? 8239) || (c =? 8287) || (c =? 12288) || (c =? 65279))%N.

(** Line terminators: the code units [.] does not match. *)
Definition is_line_terminator (c : char) : bool :=
  ((c =? 10) || (c =? 13) || (c =? 8232) || (c =? 8233))%N.

Fixpoint trimStart (s : jstring) : jstring :=
  match s with
  | [] => []
  | c :: s' => if is_ws c then trimStart s' else s
  end.

Definition trimEnd (s : jstring) : jstring := rev (trimStart (rev s)).

Definition trim (s : jstring) : jstring := trimEnd (trimStart s).

(** *** Integers to decimal text *)

Definition digit_char (d : N) : char := (48 + d)%N.

Definition is_digit (c : char) : bool := ((48 <=? c) && (c <=? 57))%N.

Definition digit_val (c : char) : Z := Z.of_N (c - 48).

(** The decimal digits of [n], most significant first; [acc] holds the
    digits already produced.  The fuel is a bound on their number. *)
Fixpoint digits_loop (fuel : nat) (n : N) (acc : jstring) : jstring :=
  let acc' := digit_char (n mod 10) :: acc in
  match fuel with
  | O => acc'
  | S fuel' =>
      if (n / 10 =? 0)%N then acc' else digits_loop fuel' (n / 10) acc'
  end.

Definition digits (n : N) : jstring :=
  digits_loop (N.to_nat (N.log2 n)) n [].

(** [z.toString()] for an integer [z]; [(-0).toString()] is ["0"] like
    [(0).toString()]. *)
Definition ToString (z : Z) : jstring :=
  match z with
  | Z0 => [ZERO]
  | Zpos p => digits (Npos p)
  | Zneg p => MINUS :: digits (Npos p)
  end.

(** [s.padStart(len, '0')] *)
Definition padStart0 (s : jstring) (len : nat) : jstring :=
  repeat ZERO (len - length s) ++ s.

(** [a % b] on integers: the remainder takes the sign of the dividend. *)
Definition rem (a b : Z) : Z := Z.rem a b.

(** [Math.floor(a / b)] on integers, for a positive constant [b]. *)
Definition floor_div (a b : Z) : Z := a / b.

(** *** Doubles *)

(** [2^k] for an integer [k] of either sign. *)
Definition pow2 (k : Z) : Q :=
  match k with
  | Z0 => 1
  | Zpos p => inject_Z (2 ^ Zpos p)
  | Zneg p => 1 # (2 ^ p)
  end.

(** The binary exponent of a positive rational [a]: the [k] with
    [2^k <= a < 2^(k+1)]. *)
Definition ilog2 (a : Q) : Z :=
  let k := Z.log2 (Qnum a) - Z.log2 (Zpos (Qden a)) in
  if Qle_bool (pow2 k) a then k else k - 1.

(** The integer nearest to [x]; of two that are equally near, the even
    one. *)
Definition round_half_even (x : Q) : Z :=
  let f := Qfloor x in
  match (x - inject_Z f ?= 1 # 2)%Q with
  | Lt => f
  | Gt => f + 1
  | Eq => if Z.even f then f else f + 1
  end.

(** The Number value of a rational: the double nearest to it, ties to
    even.  A double has a significand of 53 bits over an exponent that is
    at least [-1074]; the result is in lowest terms. *)
Definition nearest_double (x0 : Q) : Q :=
  let x := Qred x0 in
  if Qeq_bool x 0 then 0
  else
    let e := Z.max (ilog2 (Qabs x) - 52) (-1074) in
    Qred (inject_Z (round_half_even (x / pow2 e)) * pow2 e).

(** [x * y] on numbers given by rationals: the Number value of the exact
    product of the two Number values. *)
Definition times (x y : Q) : Q :=
  nearest_double (nearest_double x * nearest_double y).

(** [Math.floor(x)] and [Math.round(x)] of a finite double: both are
    exact, and [Math.round] takes a half upwards. *)
Definition Math_floor (x : Q) : Z := Qfloor x.
Definition Math_round (x : Q) : Z := Qfloor (x + (1 # 2)).

(** [l.map((x, index) => f x index)] *)
Fixpoint mapi_from {A B : Type} (i : nat) (f : A -> nat -> B) (l : list A)
  : list B :=
  match l with
  | [] => []
  | x :: xs => f x i :: mapi_from (S i) f xs
  end.

Definition mapi {A B : Type} (f : A -> nat -> B) (l : list A) : list B :=
  mapi_from 0 f l.

End JS.

Import JS.

(** ** Segments *)

(** A transcription segment as [Transcriber._processSegments] builds it. *)
Record segment : Type := mkSegment {
  seg_id : Z;
  seg_start : Q;
  seg_end : Q;
  seg_text : jstring;
  seg_tokens : option (list Z);
  seg_confidence : option Q
}.

(** ** lib/SubtitleWriter.js *)

Module SubtitleWriter.

(** [_pad(num, size)]: [while (s.length < size) s = '0' + s].  The loop
    runs at most [size] times. *)
Fixpoint pad_loop (fuel : nat) (s : jstring) (size : nat) : jstring :=
  match fuel with
  | O => s
  | S fuel' =>
      if (length s <? size)%nat then pad_loop fuel' (ZERO :: s) size else s
  end.

Definition _pad (num : Z) (size : nat) : jstring :=
  pad_loop size (ToString num) size.

Definition _formatSRTTimestamp (seconds : Q) : jstring :=
  let totalMilliseconds := Math_floor (times seconds 1000) in
  let milliseconds := rem totalMilliseconds 1000 in
  let totalSeconds := floor_div totalMilliseconds 1000 in
  let secs := rem totalSeconds 60 in
  let totalMinutes := floor_div totalSeconds 60 in
  let mins := rem totalMinutes 60 in
  let hours := floor_div totalMinutes 60 in
  _pad hours 2 ++ [COLON] ++ _pad mins 2 ++ [COLON] ++ _pad secs 2
    ++ [COMMA] ++ _pad milliseconds 3.

Definition _formatVTTTimestamp (seconds : Q) : jstring :=
  let totalMilliseconds := Math_floor (times seconds 1000) in
  let milliseconds := rem totalMilliseconds 1000 in
  let totalSeconds := floor_div totalMilliseconds 1000 in
  let secs := rem totalSeconds 60 in
  let totalMinutes := floor_div totalSeconds 60 in
  let mins := rem totalMinutes 60 in
  let hours := floor_div totalMinutes 60 in
  _pad hours 2 ++ [COLON] ++ _pad mins 2 ++ [COLON] ++ _pad secs 2
    ++ [PERIOD] ++ _pad milliseconds 3.

(** One turn of the [for (const word of words)] loop; the state is
    [(lines, currentLine)]. *)
Definition wrap_step (maxLength : nat) (st : list jstring * jstring)
    (word : jstring) : list jstring * jstring :=
  let '(lines, currentLine) := st in
  if (maxLength <? length (trim (currentLine ++ [SPACE] ++ word)))%nat then
    if truthy currentLine then (lines ++ [trim currentLine], word)
    else (lines ++ [word], [])
  else
    (lines, if truthy currentLine then currentLine ++ [SPACE] ++ word
            else word).

(** The lines the loop has collected, with the remaining text added. *)
Definition greedy_lines (words : list jstring) (maxLength : nat)
  : list jstring :=
  let '(lines, currentLine) :=
    fold_left (wrap_step maxLength) words ([], []) in
  if truthy currentLine then lines ++ [trim currentLine] else lines.

(** [Math.ceil(n / 2)] *)
Definition ceil_half (n : nat) : nat := (n + 1) / 2.

Definition _splitTextIntoLines (text : jstring) (maxLength : nat)
  : list jstring :=
  if (length text <=? maxLength)%nat then [text]
  else
    let words := split SPACE text in
    let lines := greedy_lines words maxLength in
    if (2 <? length lines)%nat then
      let halfLength := ceil_half (length words) in
      let firstHalf := join [SPACE] (firstn halfLength words) in
      let secondHalf := join [SPACE] (skipn halfLength words) in
      [firstHalf; secondHalf]
    else lines.

Definition ARROW : jstring := Eval cbv in lit " --> ".

(** The callback of [segments.map] in [_generateSRT]: the block of the
    segment at position [index]. *)
Definition srtBlock (seg : segment) (index : nat) : jstring :=
  let sequenceNumber := Z.of_nat index + 1 in
  let startTime := _formatSRTTimestamp (seg_start seg) in
  let endTime := _formatSRTTimestamp (seg_end seg) in
  let textLines := _splitTextIntoLines (seg_text seg) 42 in
  join [NEWLINE]
    ([ToString sequenceNumber; startTime ++ ARROW ++ endTime]
       ++ textLines ++ [[]]).

Definition _generateSRT (segments : list segment) : jstring :=
  let srtBlocks := mapi srtBlock segments in
  join [NEWLINE] srtBlocks.

(** The callback of [segments.map] in [_generateWebVTT]. *)
Definition vttCue (seg : segment) (index : nat) : jstring :=
  let sequenceNumber := Z.of_nat index + 1 in
  let startTime := _formatVTTTimestamp (seg_start seg) in
  let endTime := _formatVTTTimestamp (seg_end seg) in
  let textLines := _splitTextIntoLines (seg_text seg) 42 in
  join [NEWLINE]
    ([ToString sequenceNumber; startTime ++ ARROW ++ endTime]
       ++ textLines ++ [[]]).

Definition _generateWebVTT (segments : list segment) : jstring :=
  let vttHeader := lit "WEBVTT" ++ [NEWLINE; NEWLINE] in
  let vttCues := mapi vttCue segments in
  vttHeader ++ join [NEWLINE] vttCues.

End SubtitleWriter.

Import SubtitleWriter.


(** ** Outcomes of the shifting tool *)

(** The only exception the modelled code can raise: a method call on
    [undefined]. *)
Inductive error : Type := TypeError.

(** A run returns a value, throws, or calls the formatter on a number
    outside its model (see the conventions at the head of the file). *)
Inductive outcome (A : Type) : Type :=
| Returns (a : A)
| Throws (e : error)
| Unmodelled.

Arguments Returns {A} & a.
Arguments Throws {A} e.
Arguments Unmodelled {A}.

Definition bind {A B : Type} (m : outcome A) (k : A -> outcome B)
  : outcome B :=
  match m with
  | Returns a => k a
  | Throws e => Throws e
  | Unmodelled => Unmodelled
  end.

Notation "x <- m ;; k" := (bind m (fun x => k))
  (at level 61, m at next level, right associativity).

Fixpoint mapM {A B : Type} (f : A -> outcome B) (l : list A)
  : outcome (list B) :=
  match l with
  | [] => Returns []
  | x :: xs => y <- f x ;; ys <- mapM f xs ;; Returns (y :: ys)
  end.

(** ** shift-timing.js *)

Module ShiftTiming.

(** A JavaScript number: [NaN], an infinity, or a finite double. *)
Inductive double : Type :=
| dNaN
| dInf (negative : bool)
| dFin (q : Q).

(** The Number value of a rational among all doubles: an infinity from
    [2^1024] on. *)
Definition Number_value (x : Q) : double :=
  let y := nearest_double x in
  if Qle_bool (pow2 1024) (Qabs y) then dInf (negb (Qle_bool 0 y))
  else dFin y.

(** [a + b] and [a * b] *)
Definition dadd (a b : double) : double :=
  match a, b with
  | dNaN, _ | _, dNaN => dNaN
  | dInf s, dInf t => if Bool.eqb s t then dInf s else dNaN
  | dInf s, dFin _ | dFin _, dInf s => dInf s
  | dFin x, dFin y => Number_value (x + y)
  end.

Definition dmul (a b : double) : double :=
  match a, b with
  | dNaN, _ | _, dNaN => dNaN
  | dInf s, dInf t => dInf (xorb s t)
  | dInf s, dFin y | dFin y, dInf s =>
      if Qeq_bool y 0 then dNaN else dInf (xorb s (negb (Qle_bool 0 y)))
  | dFin x, dFin y => Number_value (x * y)
  end.

(** [undefined] converts to [NaN] in arithmetic and under [Number]. *)
Definition ToNumber (v : option double) : double :=
  match v with
  | Some n => n
  | None => dNaN
  end.

(** A number the formatter is modelled on: [NaN], or an integer held
    exactly by a double. *)
Inductive num : Type :=
| NaN
| Int (z : Z).

(** Integers up to this magnitude are exact in a double. *)
Definition MAX_EXACT : Z := 2 ^ 53.

(** Such a number among the doubles. *)
Definition as_double (n : num) : double :=
  match n with
  | NaN => dNaN
  | Int z => dFin (inject_Z z)
  end.

Coercion as_double : num >-> double.

Definition int (z : Z) : outcome num :=
  if Z.abs z <=? MAX_EXACT then Returns (Int z) else Unmodelled.

(** The argument of a call of the formatter: a double that is [NaN] or
    such an integer, or else a number the formatter is not modelled on. *)
Definition ms_count (d : double) : outcome num :=
  match d with
  | dNaN => Returns NaN
  | dInf _ => Unmodelled
  | dFin q => if (Qden q =? 1)%positive then int (Qnum q) else Unmodelled
  end.

(** [10^k] for an integer [k] of either sign. *)
Definition pow10 (k : Z) : Q :=
  match k with
  | Z0 => 1
  | Zpos p => inject_Z (10 ^ Zpos p)
  | Zneg p => 1 # (10 ^ p)
  end.

(** *** [Number(string)]: the StringNumericLiteral grammar *)

(** The longest prefix of [s] whose code units satisfy [p], and the rest. *)
Fixpoint span (p : char -> bool) (s : jstring) : jstring * jstring :=
  match s with
  | [] => ([], [])
  | c :: s' =>
      if p c then let '(a, b) := span p s' in (c :: a, b) else ([], s)
  end.

Definition digits_value (base : Z) (val : char -> Z) (ds : jstring) : Z :=
  fold_left (fun acc c => acc * base + val c) ds 0.

Definition is_hex_digit (c : char) : bool :=
  (is_digit c || (65 <=? c) && (c <=? 70) || (97 <=? c) && (c <=? 102))%N.

Definition hex_val (c : char) : Z :=
  if is_digit c then digit_val c
  else if (c <=? 70)%N then Z.of_N (c - 55) else Z.of_N (c - 87).

Definition is_octal_digit (c : char) : bool := ((48 <=? c) && (c <=? 55))%N.
Definition is_binary_digit (c : char) : bool := ((48 <=? c) && (c <=? 49))%N.

Definition all_of (p : char -> bool) (ds : jstring) : bool :=
  truthy ds && forallb p ds.

(** [0x], [0o] and [0b] literals; they take no sign. *)
Definition NonDecimalIntegerLiteral (t : jstring) : option Z :=
  match t with
  | z :: c :: ds =>
      if negb (z =? ZERO)%N then None
      else if ((c =? 120) || (c =? 88))%N && all_of is_hex_digit ds
      then Some (digits_value 16 hex_val ds)
      else if ((c =? 111) || (c =? 79))%N && all_of is_octal_digit ds
      then Some (digits_value 8 digit_val ds)
      else if ((c =? 98) || (c =? 66))%N && all_of is_binary_digit ds
      then Some (digits_value 2 digit_val ds)
      else None
  | _ => None
  end.

(** An optional sign: [true] for [-]. *)
Definition strip_sign (t : jstring) : bool * jstring :=
  match t with
  | c :: t' =>
      if (c =? MINUS)%N then (true, t')
      else if (c =? PLUS)%N then (false, t')
      else (false, t)
  | [] => (false, [])
  end.

(** Digits, an optional fraction and an optional exponent part, read as
    [(m, e)] for the value [m * 10^e]; [None] when [u] is not such a
    literal. *)
Definition StrUnsignedDecimalLiteral (u : jstring) : option (Z * Z) :=
  let '(ip, r1) := span is_digit u in
  let '(fp, r2) :=
    match r1 with
    | c :: r => if (c =? PERIOD)%N then span is_digit r else ([], r1)
    | [] => ([], [])
    end in
  if negb (truthy ip) && negb (truthy fp) then None
  else
    let m := digits_value 10 digit_val (ip ++ fp) in
    let f := Z.of_nat (length fp) in
    match r2 with
    | [] => Some (m, - f)
    | c :: r =>
        if ((c =? 101) || (c =? 69))%N then
          let '(neg, r') := strip_sign r in
          let '(ed, r3) := span is_digit r' in
          if truthy ed && negb (truthy r3) then
            let x := digits_value 10 digit_val ed in
            Some (m, (if neg then - x else x) - f)
          else None
        else None
    end.

Definition INFINITY : jstring := Eval cbv in lit "Infinity".

(** [Number(s)].  Blank text is [0]; text that is no numeric literal is
    [NaN]; a literal has the Number value of the rational it spells. *)
Definition Number_ (s : jstring) : double :=
  let t := trim s in
  match t with
  | [] => dFin 0
  | _ :: _ =>
      match NonDecimalIntegerLiteral t with
      | Some v => Number_value (inject_Z v)
      | None =>
          let '(neg, u) := strip_sign t in
          if JS.eqb u INFINITY then dInf neg
          else
            match StrUnsignedDecimalLiteral u with
            | None => dNaN
            | Some (m, e) =>
                let m := if neg then - m else m in
                Number_value (inject_Z m * pow10 e)
            end
      end
  end.

(** [Number(v)] for a value that may be [undefined]. *)
Definition Number_opt (v : option jstring) : double :=
  match v with
  | Some s => Number_ s
  | None => dNaN
  end.

(** [parseTimestamp(timestamp)]; the argument is [None] when the caller
    passes [undefined], and [timestamp.split] then throws. *)
Definition parseTimestamp (timestamp : option jstring) : outcome double :=
  match timestamp with
  | None => Throws TypeError
  | Some ts =>
      let parts := split COMMA ts in
      let time := hd [] parts in
      let ms := nth_error parts 1 in
      let fields := map Number_ (split COLON time) in
      let hours := ToNumber (nth_error fields 0) in
      let minutes := ToNumber (nth_error fields 1) in
      let seconds := ToNumber (nth_error fields 2) in
      Returns
        (dadd (dmul (dadd (dadd (dmul hours (dFin 3600))
                             (dmul minutes (dFin 60)))
                       seconds)
                 (dFin 1000))
           (Number_opt ms))
  end.

Definition lt0 (n : num) : bool :=
  match n with
  | Int z => z <? 0
  | NaN => false
  end.

Definition nrem (n : num) (b : Z) : num :=
  match n with
  | Int z => Int (rem z b)
  | NaN => NaN
  end.

Definition nfloor_div (n : num) (b : Z) : num :=
  match n with
  | Int z => Int (floor_div z b)
  | NaN => NaN
  end.

(** [String(n)] *)
Definition String_ (n : num) : jstring :=
  match n with
  | Int z => ToString z
  | NaN => lit "NaN"
  end.

Definition formatTimestamp (totalMs : num) : jstring :=
  let totalMs := if lt0 totalMs then Int 0 else totalMs in
  let ms := nrem totalMs 1000 in
  let totalSeconds := nfloor_div totalMs 1000 in
  let seconds := nrem totalSeconds 60 in
  let totalMinutes := nfloor_div totalSeconds 60 in
  let minutes := nrem totalMinutes 60 in
  let hours := nfloor_div totalMinutes 60 in
  let pad := fun (n : num) (len : nat) => padStart0 (String_ n) len in
  pad hours 2%nat ++ [COLON] ++ pad minutes 2%nat ++ [COLON]
    ++ pad seconds 2%nat ++ [COMMA] ++ pad ms 3%nat.

Definition TIMING_MARK : jstring := Eval cbv in lit "-->".

(** The body of the [for (const line of lines)] loop: the line pushed to
    [shiftedLines].  The offset is an integer, as [Math.round] gives it. *)
Definition shiftLine (offsetMs : Z) (line : jstring) : outcome jstring :=
  if includes TIMING_MARK line then
    let parts := split SPACE line in
    let start := nth_error parts 0 in
    let end_ := nth_error parts 2 in
    startMs <- parseTimestamp start ;;
    endMs <- parseTimestamp end_ ;;
    s <- ms_count (dadd startMs (Int offsetMs)) ;;
    e <- ms_count (dadd endMs (Int offsetMs)) ;;
    let newStart := formatTimestamp s in
    let newEnd := formatTimestamp e in
    Returns (newStart ++ ARROW ++ newEnd)
  else Returns line.

Definition shiftSubtitles (content : jstring) (offsetMs : Z)
  : outcome jstring :=
  let lines := split NEWLINE content in
  shiftedLines <- mapM (shiftLine offsetMs) lines ;;
  Returns (join [NEWLINE] shiftedLines).


End ShiftTiming.

Import ShiftTiming.

(** ** lib/Translator.js *)

Module Translator.

(** [.+$]: one or more code units, none a line terminator, up to the end
    of the text. *)
Definition dot_plus_to_end (s : jstring) : bool :=
  truthy s && forallb (fun c => negb (is_line_terminator c)) s.

(** [\s*(.+)$] at the start of [s]: the capture.  The star is greedy: it
    takes a white-space unit when the rest still matches, and gives it
    back otherwise. *)
Fixpoint capture_body (s : jstring) : option jstring :=
  match s with
  | [] => None
  | c :: s' =>
      if is_ws c then
        match capture_body s' with
        | Some b => Some b
        | None => if dot_plus_to_end s then Some s else None
        end
      else if dot_plus_to_end s then Some s else None
  end.

(** [line.match(/^\[(\d+)\]\s*(.+)$/)]: the two captures. *)
Definition match_line (line : jstring) : option (jstring * jstring) :=
  match line with
  | c :: r =>
      if (c =? LBRACKET)%N then
        let '(ds, r1) := span is_digit r in
        if truthy ds then
          match r1 with
          | d :: r2 =>
              if (d =? RBRACKET)%N then
                match capture_body r2 with
                | Some b => Some (ds, b)
                | None => None
                end
              else None
          | [] => None
          end
        else None
      else None
  | [] => None
  end.

(** [parseInt(ds)] for a run of decimal digits. *)
Definition parseInt (ds : jstring) : Z := digits_value 10 digit_val ds.

(** [segments[index]] for a non-negative integer [index]. *)
Definition at_index (segments : list segment) (index : Z) : option segment :=
  nth_error segments (Z.to_nat index).

(** [c || null] on a confidence: [0] is falsy. *)
Definition confidence_or_null (c : option Q) : option Q :=
  match c with
  | Some q => if Qeq_bool q 0 then None else Some q
  | None => None
  end.

(** The object pushed for a parsed line. *)
Definition translated (seg : segment) (text : jstring) : segment :=
  {| seg_id := seg_id seg;
     seg_start := seg_start seg;
     seg_end := seg_end seg;
     seg_text := text;
     seg_tokens := Some (match seg_tokens seg with Some t => t | None => [] end);
     seg_confidence := confidence_or_null (seg_confidence seg) |}.

(** One turn of the [for (const line of translatedLines)] loop. *)
Definition parse_step (segments : list segment)
    (translatedSegments : list segment) (line : jstring) : list segment :=
  match match_line line with
  | Some (m1, m2) =>
      let index := parseInt m1 in
      let text := trim m2 in
      match at_index segments index with
      | Some seg => translatedSegments ++ [translated seg text]
      | None => translatedSegments
      end
  | None => translatedSegments
  end.

(** The segments parsed out of the answer [content]. *)
Definition parse_response (segments : list segment) (content : jstring)
  : list segment :=
  let translatedText := trim content in
  let translatedLines :=
    filter (fun line => truthy (trim line)) (split NEWLINE translatedText) in
  fold_left (parse_step segments) translatedLines [].

(** [_translateAllSegments] from the answer of the completion call on:
    [content] is [completion.choices[0].message.content]. *)
Definition _translateAllSegments (segments : list segment) (content : jstring)
  : list segment :=
  let translatedSegments := parse_response segments content in
  if negb (length translatedSegments =? length segments)%nat then
    mapi (fun seg i =>
            match nth_error translatedSegments i with
            | Some t => t
            | None => seg
            end) segments
  else translatedSegments.

End Translator.

Import Translator.

(** ** lib/Translator.js: the request *)

Module TranslatorRequest.



End TranslatorRequest.

Import TranslatorRequest.

(** ** lib/Transcriber.js *)

Module Transcriber.

(** A segment of the raw answer of the transcription service. *)
Record raw_segment : Type := mkRaw {
  raw_start : Q;
  raw_end : Q;
  raw_text : jstring;
  raw_tokens : option (list Z);
  raw_avg_logprob : option Q
}.

(** The raw answer: [segments] and [duration] may be absent. *)
Record transcription : Type := mkTranscription {
  tr_text : jstring;
  tr_duration : option Q;
  tr_segments : option (list raw_segment)
}.

(** [d || 0] on a duration. *)
Definition duration_or_zero (d : option Q) : Q :=
  match d with
  | Some q => if Qeq_bool q 0 then 0%Q else q
  | None => 0%Q
  end.

(** The callback of [transcription.segments.map]. *)
Definition processed (seg : raw_segment) (index : nat) : segment :=
  {| seg_id := Z.of_nat index + 1;
     seg_start := raw_start seg;
     seg_end := raw_end seg;
     seg_text := trim (raw_text seg);
     seg_tokens := Some (match raw_tokens seg with Some t => t | None => [] end);
     seg_confidence := confidence_or_null (raw_avg_logprob seg) |}.

(** The single segment made of the full text when there are no segments. *)
Definition fallback_segment (tr : transcription) : segment :=
  {| seg_id := 1;
     seg_start := 0;
     seg_end := duration_or_zero (tr_duration tr);
     seg_text := trim (tr_text tr);
     seg_tokens := None;
     seg_confidence := None |}.

Definition _processSegments (tr : transcription) : list segment :=
  match tr_segments tr with
  | None => [fallback_segment tr]
  | Some [] => [fallback_segment tr]
  | Some (s :: segs) => mapi processed (s :: segs)
  end.

End Transcriber.

Import Transcriber.

(** * Vocabulary of the statements *)

(** A text is tidy when [trim] has nothing to strip at either end. *)
Definition tidy (s : jstring) : Prop :=
  trimStart s = s /\ trimStart (rev s) = rev s.

(** A word of the wrapper's contract, delimited by white space: it is not
    empty, holds no space, and neither starts nor ends with a white-space
    unit ([trim] leaves it as it is). *)
Definition word (w : jstring) : Prop :=
  w <> [] /\ forallb (fun c => negb (c =? SPACE)%N) w = true /\ tidy w.

(** What the splitter does after the loop with the remaining text. *)
Definition finish (st : list jstring * jstring) : list jstring :=
  let '(lines, currentLine) := st in
  if truthy currentLine then lines ++ [trim currentLine] else lines.

(** [1] for a line in progress, [0] for none. *)
Definition b2n (b : bool) : nat := if b then 1%nat else 0%nat.

(** The text still to be placed: the line in progress and the words not
    yet read, as one text. *)
Definition ahead (cur : jstring) (ws : list jstring) : jstring :=
  if truthy cur then join [SPACE] (cur :: ws) else join [SPACE] ws.

(** The lines closed so far, the line in progress and the words not yet
    read, joined by spaces into one text. *)
Definition spelled (st : list jstring * jstring) (ws : list jstring)
  : jstring :=
  let '(lines, cur) := st in
  join [SPACE] (lines ++ (if truthy cur then cur :: ws else ws)).

(** The value of a run of decimal digits. *)
Definition dec (ds : jstring) : Z := digits_value 10 digit_val ds.

(** A non-empty run of decimal digits. *)
Definition digit_string (s : jstring) : Prop :=
  s <> [] /\ forallb is_digit s = true.

(** The four fields the formatters print for a count [t] of milliseconds. *)
Definition hours_of (t : Z) : Z :=
  floor_div (floor_div (floor_div t 1000) 60) 60.
Definition mins_of (t : Z) : Z := rem (floor_div (floor_div t 1000) 60) 60.
Definition secs_of (t : Z) : Z := rem (floor_div t 1000) 60.
Definition millis_of (t : Z) : Z := rem t 1000.

(** The lines of the caption block at 1-based position [index], for a
    timestamp formatter [fmt]. *)
Definition block_lines (fmt : Q -> jstring) (seg : segment) (index : Z)
  : list jstring :=
  [ToString index; fmt (seg_start seg) ++ lit " --> " ++ fmt (seg_end seg)]
    ++ _splitTextIntoLines (seg_text seg) 42
    ++ [[]].

(** A text that fits on one line. *)
Definition no_newline (s : jstring) : Prop := Forall (fun c => c <> NEWLINE) s.

(** The text of a timestamp in the shape [H:M:S,mmm] with decimal fields. *)
Definition stamp (h m s ms : jstring) : jstring :=
  h ++ [COLON] ++ m ++ [COLON] ++ s ++ [COMMA] ++ ms.






(** A timing line as the tool itself prints it, for two counts of
    milliseconds. *)
Definition timing_line (t1 t2 : Z) : jstring :=
  formatTimestamp (Int t1) ++ ARROW ++ formatTimestamp (Int t2).

(** A timing line in that form whose two counts, before and after the
    shift by [offsetMs], are held exactly by a double. *)
Definition canonical_timing (offsetMs : Z) (line : jstring) : Prop :=
  exists t1 t2 : Z,
    0 <= t1 <= MAX_EXACT /\ 0 <= t2 <= MAX_EXACT
    /\ Z.abs (t1 + offsetMs) <= MAX_EXACT /\ Z.abs (t2 + offsetMs) <= MAX_EXACT
    /\ line = timing_line t1 t2.


Definition SAMPLE_TRACK : jstring :=
  lit "1" ++ [NEWLINE] ++ lit "00:00:01,000 --> 00:00:04,000" ++ [NEWLINE]
    ++ lit "Hello world" ++ [NEWLINE].

Definition SEG_A : segment := mkSegment 0 1 4 (lit "Hello world") None None.


(** A segment whose start, [4.35], is no double: the double nearest to it
    lies below, and its product with [1000] rounds to [4350]. *)
Definition SEG_LATE : segment :=
  mkSegment 1 (435 # 100) 8 (lit "Goodbye") None None.

(** A returned line is in order when it fits the width, or is one word of
    the text, as it stands or trimmed. *)
Definition line_in_order (maxLength : nat) (words : list jstring)
    (l : jstring) : Prop :=
  (length l <= maxLength)%nat
  \/ exists w, In w words /\ (l = w \/ l = trim w).





(** A track whose timing lines are all in the tool's own form, with counts
    of milliseconds that satisfy [P]. *)
Definition timing_track (P : Z -> Prop) (content : jstring) : Prop :=
  Forall (fun line =>
            includes TIMING_MARK line = false
            \/ exists t1 t2, P t1 /\ P t2 /\ line = timing_line t1 t2)
    (split NEWLINE content).

(** The timestamp of a time of [seconds] after a shift by [offsetMs]:
    the count of milliseconds the writer prints, moved by the offset and
    printed by the shifting tool, which clamps it at zero. *)
Definition shifted_stamp (offsetMs : Z) (seconds : Q) : jstring :=
  formatTimestamp (Int (Math_floor (times seconds 1000) + offsetMs)).

(** The track of the segments with every timestamp shifted. *)
Definition shifted_track (offsetMs : Z) (segments : list segment) : jstring :=
  join [NEWLINE]
    (mapi (fun seg index =>
             join [NEWLINE]
               (block_lines (shifted_stamp offsetMs) seg (Z.of_nat index + 1)))
       segments).

(** The greater-than sign, without which no line holds ["-->"]. *)
Definition GREATER : char := Eval cbv in N_of_ascii ">".

(** The bounds under which a segment's times and their shifts are counts
    of milliseconds a double holds exactly. *)
Definition shiftable (offsetMs : Z) (seconds : Q) : Prop :=
  (0 <= seconds)%Q
  /\ Math_floor (times seconds 1000) <= MAX_EXACT
  /\ Z.abs (Math_floor (times seconds 1000) + offsetMs) <= MAX_EXACT.



(** A raw answer with two segments, for the examples. *)
Definition RAW_SAMPLE : transcription :=
  mkTranscription (lit " Hello world. Goodbye. ") (Some 8%Q)
    (Some [mkRaw 1 4 (lit " Hello world.") None None;
           mkRaw 5 8 (lit " Goodbye.") None None]).

(** * Properties *)

(** ** Strings: [split], [join] and [trim] *)

Section StringFacts.

Variable sep : char.

Lemma split_nonempty (s : jstring) : split sep s <> [].
Proof.
  destruct s as [|c s]; simpl; [discriminate|].
  destruct (c =? sep)%N; [discriminate|].
  destruct (split sep s); discriminate.
Qed.

Lemma join_cons (x : jstring) (xs : list jstring) (p : jstring) :
  join p (x :: xs) = x ++ match xs with [] => [] | _ :: _ => p ++ join p xs end.
Proof. destruct xs; simpl; [now rewrite app_nil_r | reflexivity]. Qed.

(** Joining the pieces of a split with the separator gives the text back. *)
Lemma join_split (s : jstring) : join [sep] (split sep s) = s.
Proof.
  induction s as [|c s IH]; [reflexivity|].
  cbn [split]. destruct (N.eqb_spec c sep) as [->|Hne].
  - rewrite join_cons. generalize (split_nonempty s).
    destruct (split sep s) as [|w ws]; [congruence|]. intros _.
    now rewrite IH.
  - generalize (split_nonempty s).
    destruct (split sep s) as [|w ws]; [congruence|]. intros _.
    rewrite join_cons in IH. rewrite join_cons, <- app_comm_cons.
    f_equal. exact IH.
Qed.

(** A text without the separator is a single piece. *)
Lemma split_without (s : jstring) :
  forallb (fun c => negb (c =? sep)%N) s = true -> split sep s = [s].
Proof.
  induction s as [|c s IH]; [reflexivity|]. cbn [forallb split].
  intros [Hc Hs]%andb_prop. apply negb_true_iff in Hc. rewrite Hc.
  now rewrite (IH Hs).
Qed.

Lemma split_app_sep (a b : jstring) :
  forallb (fun c => negb (c =? sep)%N) a = true ->
  split sep (a ++ sep :: b) = a :: split sep b.
Proof.
  induction a as [|c a IH]; cbn [forallb app split].
  - now rewrite N.eqb_refl.
  - intros [Hc Ha]%andb_prop. apply negb_true_iff in Hc. rewrite Hc.
    now rewrite (IH Ha).
Qed.

(** Splitting a join of separator-free pieces gives the pieces back. *)
Lemma split_join (ws : list jstring) :
  ws <> [] ->
  Forall (fun w => forallb (fun c => negb (c =? sep)%N) w = true) ws ->
  split sep (join [sep] ws) = ws.
Proof.
  induction ws as [|w ws IH]; [congruence|]. intros _ Hall.
  inversion Hall as [|? ? Hw Hws]; subst.
  destruct ws as [|w' ws'].
  - simpl. now apply split_without.
  - change (join [sep] (w :: w' :: ws')) with (w ++ sep :: join [sep] (w' :: ws')).
    rewrite split_app_sep by assumption. f_equal. apply IH; [discriminate|assumption].
Qed.

Lemma split_all_empty (s : jstring) :
  Forall (fun w => w = []) (split sep s) <-> forallb (fun c => (c =? sep)%N) s = true.
Proof.
  induction s as [|c s IH]; cbn [split forallb].
  - split; [reflexivity | repeat constructor].
  - destruct (N.eqb_spec c sep) as [->|Hne]; simpl.
    + rewrite <- IH. split; [now inversion 1 | now constructor].
    + split; [|discriminate].
      destruct (split sep s); inversion 1; discriminate.
Qed.

End StringFacts.

Lemma join_app (p : jstring) (l r : list jstring) :
  l <> [] -> r <> [] -> join p (l ++ r) = join p l ++ p ++ join p r.
Proof.
  induction l as [|x l IH]; [congruence|]. intros _ Hr.
  destruct l as [|y l].
  - simpl. destruct r; [congruence | reflexivity].
  - change (join p ((x :: y :: l) ++ r)) with (x ++ p ++ join p ((y :: l) ++ r)).
    rewrite IH by (discriminate || assumption).
    change (join p (x :: y :: l)) with (x ++ p ++ join p (y :: l)).
    now rewrite <- !app_assoc.
Qed.

Lemma join_length_cons (p x : jstring) (xs : list jstring) :
  length (join p (x :: xs)) =
  (length x + match xs with [] => 0 | _ :: _ => length p + length (join p xs) end)%nat.
Proof. rewrite join_cons. destruct xs; rewrite ?length_app; simpl; lia. Qed.

Lemma trimStart_length (s : jstring) : (length (trimStart s) <= length s)%nat.
Proof.
  induction s as [|c s IH]; simpl; [lia|]. destruct (is_ws c); simpl; lia.
Qed.

Lemma trim_length (s : jstring) : (length (trim s) <= length s)%nat.
Proof.
  unfold trim, trimEnd. rewrite length_rev.
  etransitivity; [apply trimStart_length|]. rewrite length_rev.
  apply trimStart_length.
Qed.

Lemma tidy_trim (s : jstring) : tidy s -> trim s = s.
Proof.
  intros [H1 H2]. unfold trim, trimEnd. now rewrite H1, H2, rev_involutive.
Qed.

Lemma tidy_nil : tidy [].
Proof. split; reflexivity. Qed.

Lemma trimStart_stable_app (a b : jstring) :
  a <> [] -> trimStart a = a -> trimStart (a ++ b) = a ++ b.
Proof.
  destruct a as [|c a]; [congruence|]. intros _. simpl.
  destruct (is_ws c); [|reflexivity].
  intros H. exfalso. pose proof (trimStart_length a) as L.
  rewrite H in L. simpl in L. lia.
Qed.

Lemma tidy_glue (a b : jstring) (c : char) :
  a <> [] -> b <> [] -> tidy a -> tidy b -> tidy (a ++ [c] ++ b).
Proof.
  intros Ha Hb [Ha1 Ha2] [Hb1 Hb2]. split.
  - now apply trimStart_stable_app.
  - rewrite !rev_app_distr, <- app_assoc. apply trimStart_stable_app; [|assumption].
    intros E. apply (f_equal (@rev char)) in E. rewrite rev_involutive in E.
    now subst.
Qed.

(** A text free of white space has nothing for [trim] to strip. *)
Lemma solid_tidy (w : jstring) :
  forallb (fun c => negb (is_ws c)) w = true -> tidy w.
Proof.
  intros H. split.
  - destruct w as [|c w]; [reflexivity|]. simpl in *.
    apply andb_prop in H as [H _]. apply negb_true_iff in H. now rewrite H.
  - assert (Hr : forallb (fun c => negb (is_ws c)) (rev w) = true).
    { rewrite forallb_forall in *. intros x Hx. apply H. now apply in_rev. }
    destruct (rev w) as [|c r]; [reflexivity|]. simpl in *.
    apply andb_prop in Hr as [Hr _]. apply negb_true_iff in Hr. now rewrite Hr.
Qed.

(** In particular every non-empty text free of white space is a word. *)
Lemma solid_word (w : jstring) :
  w <> [] -> forallb (fun c => negb (is_ws c)) w = true -> word w.
Proof.
  intros Hne H. split; [assumption|]. split; [|now apply solid_tidy].
  rewrite forallb_forall in *. intros x Hx.
  specialize (H x Hx). destruct (N.eqb_spec x SPACE) as [->|]; [|reflexivity].
  discriminate H.
Qed.

Lemma word_tidy (w : jstring) : word w -> tidy w.
Proof. now intros (_ & _ & H). Qed.

Lemma word_no_space (w : jstring) :
  word w -> forallb (fun c => negb (c =? SPACE)%N) w = true.
Proof. now intros (_ & H & _). Qed.

(** ** The line splitter *)

Section Wrap.

Variable maxLength : nat.

Let step := wrap_step maxLength.

Lemma greedy_lines_fold (words : list jstring) :
  greedy_lines words maxLength = finish (fold_left step words ([], [])).
Proof.
  unfold greedy_lines, finish, step.
  now destruct (fold_left (wrap_step maxLength) words ([], [])).
Qed.

Lemma truthy_false (s : jstring) : truthy s = false <-> s = [].
Proof. destruct s; simpl; split; congruence. Qed.

Lemma truthy_true (s : jstring) : truthy s = true <-> s <> [].
Proof. destruct s; simpl; split; congruence. Qed.

(** The loop leaves nothing behind exactly when it starts from nothing and
    reads only empty words. *)
Lemma step_empty (st : list jstring * jstring) (w : jstring) :
  step st w = ([], []) <-> st = ([], []) /\ w = [].
Proof.
  destruct st as [lines cur]. unfold step, wrap_step. split.
  - destruct (_ <? _)%nat.
    + destruct (truthy cur); intros E; apply (f_equal fst) in E; simpl in E;
        now apply app_eq_nil in E as [_ E].
    + destruct cur as [|c cur]; simpl; intros E; injection E as -> E;
        [now subst | discriminate].
  - intros [E ->]. injection E as -> ->. reflexivity.
Qed.

Lemma fold_empty (ws : list jstring) (st : list jstring * jstring) :
  fold_left step ws st = ([], []) <->
  st = ([], []) /\ Forall (fun w => w = []) ws.
Proof.
  revert st. induction ws as [|w ws IH]; intros st; simpl.
  - split; [now split | tauto].
  - rewrite IH, step_empty. split.
    + intros [[-> ->] H]. split; [reflexivity | now constructor].
    + intros [-> H]. inversion H; subst. tauto.
Qed.

Lemma finish_empty (st : list jstring * jstring) :
  finish st = [] <-> st = ([], []).
Proof.
  destruct st as [lines cur]. unfold finish. destruct cur as [|c cur]; simpl.
  - split; [now intros -> | now injection 1].
  - split; [|discriminate]. intros E. now apply app_eq_nil in E as [_ E].
Qed.

Lemma greedy_lines_empty (ws : list jstring) :
  greedy_lines ws maxLength = [] <-> Forall (fun w => w = []) ws.
Proof. rewrite greedy_lines_fold, finish_empty, fold_empty. tauto. Qed.

(** Each word adds at most one line, counting the line in progress. *)
Lemma step_count (lines : list jstring) (cur w : jstring) :
  (length (fst (step (lines, cur) w)) + b2n (truthy (snd (step (lines, cur) w)))
   <= length lines + b2n (truthy cur) + 1)%nat.
Proof.
  unfold step, wrap_step. destruct (_ <? _)%nat.
  - destruct (truthy cur); simpl; rewrite length_app; simpl;
      destruct (truthy w); simpl; lia.
  - simpl. destruct (truthy _), (truthy cur); simpl; lia.
Qed.

Lemma fold_count (ws : list jstring) (st : list jstring * jstring) :
  (length (finish (fold_left step ws st))
   <= length (fst st) + b2n (truthy (snd st)) + length ws)%nat.
Proof.
  revert st. induction ws as [|w ws IH]; intros [lines cur].
  - simpl. destruct (truthy cur); rewrite ?length_app; simpl; lia.
  - cbn [fold_left fst snd length]. etransitivity; [apply IH|].
    pose proof (step_count lines cur w). lia.
Qed.

Lemma greedy_lines_count (ws : list jstring) :
  (length (greedy_lines ws maxLength) <= length ws)%nat.
Proof.
  rewrite greedy_lines_fold. etransitivity; [apply fold_count|]. simpl. lia.
Qed.

Lemma trim_leading_space (w : jstring) : trim ([] ++ [SPACE] ++ w) = trim w.
Proof. reflexivity. Qed.

(** While what is ahead fits the width, the loop closes no line. *)
Lemma fold_fits (ws : list jstring) (lines : list jstring) (cur : jstring) :
  (length (ahead cur ws) <= maxLength)%nat ->
  fst (fold_left step ws (lines, cur)) = lines.
Proof.
  revert cur. induction ws as [|w ws IH]; intros cur Hfit; [reflexivity|].
  cbn [fold_left]. unfold step at 2, wrap_step.
  assert (Htest : (maxLength <? length (trim (cur ++ [SPACE] ++ w)))%nat = false).
  { apply Nat.ltb_ge. revert Hfit. unfold ahead.
    destruct cur as [|c cur]; cbn [truthy].
    - rewrite trim_leading_space. pose proof (trim_length w).
      rewrite join_length_cons. lia.
    - pose proof (trim_length ((c :: cur) ++ [SPACE] ++ w)) as L.
      rewrite !length_app in L. rewrite !join_length_cons.
      destruct ws; simpl in *; lia. }
  rewrite Htest. apply IH. revert Hfit. unfold ahead.
  destruct cur as [|c cur]; cbn [truthy].
  - destruct w as [|d w]; cbn [truthy]; [|exact (fun H => H)].
    rewrite join_length_cons. destruct ws; simpl; lia.
  - cbn [app truthy]. intros Hfit. etransitivity; [|exact Hfit].
    rewrite !join_length_cons. cbn [length]. rewrite length_app.
    destruct ws; simpl; lia.
Qed.

Lemma greedy_lines_fit (text : jstring) :
  (length text <= maxLength)%nat ->
  (length (greedy_lines (split SPACE text) maxLength) <= 1)%nat.
Proof.
  intros Hfit. rewrite greedy_lines_fold.
  pose proof (fold_fits (split SPACE text) [] []) as H.
  unfold ahead in H. cbn [truthy] in H. rewrite join_split in H.
  specialize (H Hfit).
  set (st := fold_left step _ _) in *. destruct st as [lines cur].
  simpl in H. subst lines. simpl. destruct (truthy cur); simpl; lia.
Qed.

Lemma join_glue (p a b : jstring) (l r : list jstring) :
  join p (l ++ (a ++ p ++ b) :: r) = join p (l ++ a :: b :: r).
Proof.
  induction l as [|x l IH].
  - cbn [app]. rewrite !join_cons. cbn iota. now rewrite <- !app_assoc.
  - rewrite <- !app_comm_cons. rewrite (join_cons x), (join_cons x), IH.
    destruct l; reflexivity.
Qed.

Lemma step_spelled (lines : list jstring) (cur w : jstring) (ws : list jstring) :
  word w -> tidy cur ->
  spelled (step (lines, cur) w) ws = spelled (lines, cur) (w :: ws)
  /\ tidy (snd (step (lines, cur) w)).
Proof.
  intros Hw Hcur. pose proof (word_tidy w Hw) as Hwt.
  destruct Hw as [Hne _]. apply truthy_true in Hne as Hwtrue.
  unfold step, wrap_step, spelled. destruct (_ <? _)%nat.
  - destruct cur as [|c cur]; cbn [truthy snd].
    + split; [|apply tidy_nil]. now rewrite <- app_assoc.
    + rewrite Hwtrue, tidy_trim by assumption. split; [|assumption].
      now rewrite <- app_assoc.
  - destruct cur as [|c cur]; cbn [truthy snd].
    + now rewrite Hwtrue.
    + split; [apply (join_glue [SPACE])|].
      apply tidy_glue; [discriminate | assumption | assumption | assumption].
Qed.

Lemma fold_spelled (ws : list jstring) (lines : list jstring) (cur : jstring) :
  Forall word ws -> tidy cur ->
  join [SPACE] (finish (fold_left step ws (lines, cur)))
  = spelled (lines, cur) ws.
Proof.
  revert lines cur. induction ws as [|w ws IH]; intros lines cur Hws Hcur.
  - simpl. destruct (truthy cur); [|now rewrite app_nil_r]. now rewrite tidy_trim.
  - inversion Hws as [|? ? Hw Hrest]; subst. cbn [fold_left].
    destruct (step_spelled lines cur w ws Hw Hcur) as [E T].
    destruct (step (lines, cur) w) as [lines' cur'] eqn:Est.
    rewrite IH by assumption. exact E.
Qed.

Lemma greedy_lines_spelled (ws : list jstring) :
  Forall word ws ->
  join [SPACE] (greedy_lines ws maxLength) = join [SPACE] ws.
Proof.
  intros H. rewrite greedy_lines_fold, fold_spelled by (assumption || apply tidy_nil).
  reflexivity.
Qed.

End Wrap.

Lemma ceil_half_bounds (n : nat) :
  (n <= 2 * ceil_half n <= n + 1)%nat.
Proof.
  unfold ceil_half.
  pose proof (Nat.div_mod_eq (n + 1) 2) as E.
  pose proof (Nat.mod_upper_bound (n + 1) 2). lia.
Qed.

Lemma nonempty_length {A : Type} (l : list A) : (0 < length l)%nat -> l <> [].
Proof. destruct l; simpl; [lia | discriminate]. Qed.

(** C4, as amended.  The splitter never returns more than two lines, and it
    returns no line at all exactly when the text is longer than the width
    and made of space characters only; in every other case it returns one
    or two lines. *)
Theorem split_lines_count (text : jstring) (maxLength : nat) :
  (length (_splitTextIntoLines text maxLength) <= 2)%nat
  /\ (length (_splitTextIntoLines text maxLength) = 0%nat <->
      (maxLength < length text)%nat
      /\ forallb (fun c => (c =? SPACE)%N) text = true).
Proof.
  unfold _splitTextIntoLines.
  destruct (Nat.leb_spec (length text) maxLength) as [Hle|Hgt].
  - split; [simpl; lia|]. simpl. split; [discriminate | lia].
  - destruct (Nat.ltb_spec 2 (length (greedy_lines (split SPACE text) maxLength)))
      as [Hmany|Hfew].
    + split; [simpl; lia|]. simpl. split; [discriminate|].
      intros [_ Hsp]. apply split_all_empty in Hsp.
      apply (proj2 (greedy_lines_empty maxLength _)) in Hsp.
      rewrite Hsp in Hmany. simpl in Hmany. lia.
    + split; [exact Hfew|]. rewrite length_zero_iff_nil, greedy_lines_empty.
      rewrite split_all_empty. tauto.
Qed.

(** C4, as stated, fails: a text of two spaces does not fit the width 1,
    splits into three empty words, and the loop collects no line. *)
Lemma split_lines_count_counterexample :
  (0 < 1)%nat /\ _splitTextIntoLines (lit "  ") 1 = [].
Proof. split; [lia | reflexivity]. Qed.

(** C6.  When the greedy loop collects more than two lines, the splitter
    returns two lines instead: the first [ceil (n / 2)] of the [n] words of
    the text joined by spaces, then the remaining words joined by spaces,
    whatever their widths. *)
Theorem split_lines_fallback (text : jstring) (maxLength : nat) :
  let words := split SPACE text in
  let halfLength := ceil_half (length words) in
  (2 < length (greedy_lines words maxLength))%nat ->
  _splitTextIntoLines text maxLength
  = [join [SPACE] (firstn halfLength words);
     join [SPACE] (skipn halfLength words)]
  /\ length (firstn halfLength words) = halfLength
  /\ (length words <= 2 * halfLength <= length words + 1)%nat.
Proof.
  intros words halfLength Hmany. split; [|split].
  - unfold _splitTextIntoLines.
    destruct (Nat.leb_spec (length text) maxLength) as [Hle|Hgt].
    + pose proof (greedy_lines_fit maxLength text Hle). fold words in H. lia.
    + fold words. apply Nat.ltb_lt in Hmany. now rewrite Hmany.
  - pose proof (greedy_lines_count maxLength words).
    pose proof (ceil_half_bounds (length words)).
    rewrite length_firstn. fold halfLength in H0. lia.
  - apply ceil_half_bounds.
Qed.

Lemma split_lines_fallback_witness :
  let text := lit "aaaa bbbb cccc dddd eeee" in
  (2 < length (greedy_lines (split SPACE text) 4))%nat
  /\ _splitTextIntoLines text 4 = [lit "aaaa bbbb cccc"; lit "dddd eeee"].
Proof.
  split; [vm_compute; lia|].
  apply (split_lines_fallback (lit "aaaa bbbb cccc dddd eeee") 4).
  vm_compute; lia.
Defined.

(** C10.  For a text made of words separated by single spaces, joining the
    returned lines with a space gives the text back, on the short path, the
    greedy path and the two-line fallback alike: the words come back whole,
    once each and in order. *)
Theorem split_lines_keep_text (words : list jstring) (maxLength : nat) :
  Forall word words ->
  join [SPACE] (_splitTextIntoLines (join [SPACE] words) maxLength)
  = join [SPACE] words.
Proof.
  intros Hws. unfold _splitTextIntoLines.
  destruct (Nat.leb_spec (length (join [SPACE] words)) maxLength) as [Hle|Hgt];
    [reflexivity|].
  assert (Hne : words <> []) by (intros ->; simpl in Hgt; lia).
  rewrite split_join; [|assumption|].
  2:{ eapply Forall_impl; [|exact Hws]. apply word_no_space. }
  destruct (Nat.ltb_spec 2 (length (greedy_lines words maxLength)))
    as [Hmany|Hfew].
  - pose proof (greedy_lines_count maxLength words) as Hc.
    pose proof (ceil_half_bounds (length words)) as Hb.
    set (h := ceil_half (length words)) in *.
    rewrite <- (firstn_skipn h words) at 3.
    rewrite join_app.
    + reflexivity.
    + apply nonempty_length. rewrite length_firstn. lia.
    + apply nonempty_length. rewrite length_skipn. lia.
  - now apply greedy_lines_spelled.
Qed.

Lemma split_lines_keep_text_witness :
  let words := [lit "aaaa"; lit "bbbb"; lit "cccc"; lit "dddd"; lit "eeee"] in
  Forall word words
  /\ join [SPACE] (_splitTextIntoLines (join [SPACE] words) 4)
     = join [SPACE] words.
Proof.
  assert (H : Forall word
                [lit "aaaa"; lit "bbbb"; lit "cccc"; lit "dddd"; lit "eeee"]).
  { repeat constructor; apply solid_word; (discriminate || reflexivity). }
  split; [exact H|].
  exact (split_lines_keep_text _ 4 H).
Defined.

(** ** Decimal text of integers *)

Lemma dec_snoc (ds : jstring) (c : char) : dec (ds ++ [c]) = dec ds * 10 + digit_val c.
Proof. unfold dec, digits_value. now rewrite fold_left_app. Qed.

Lemma dec_zeros (k : nat) (ds : jstring) : dec (repeat ZERO k ++ ds) = dec ds.
Proof.
  unfold dec, digits_value. rewrite fold_left_app.
  replace (fold_left _ (repeat ZERO k) 0) with 0; [reflexivity|].
  induction k as [|k IH]; [reflexivity|]. simpl. exact IH.
Qed.

Lemma digit_char_ok (d : N) :
  (d < 10)%N -> is_digit (digit_char d) = true /\ digit_val (digit_char d) = Z.of_N d.
Proof.
  intros H. unfold is_digit, digit_char, digit_val. split.
  - apply andb_true_intro. split; apply N.leb_le; lia.
  - f_equal. lia.
Qed.

Lemma digits_loop_spec (fuel : nat) :
  forall (n : N) (acc : jstring),
    (n < 2 ^ (N.of_nat fuel + 1))%N ->
    exists ds, digits_loop fuel n acc = ds ++ acc
               /\ digit_string ds /\ dec ds = Z.of_N n.
Proof.
  induction fuel as [|fuel IH]; intros n acc Hn.
  - exists [digit_char (n mod 10)]. change (2 ^ (N.of_nat 0 + 1))%N with 2%N in Hn.
    destruct (digit_char_ok (n mod 10)) as [D V]; [apply N.mod_lt; lia|].
    repeat split; [discriminate | simpl; now rewrite D |].
    unfold dec, digits_value. simpl. rewrite V, N.mod_small by lia. reflexivity.
  - cbn [digits_loop].
    destruct (digit_char_ok (n mod 10)) as [D V]; [apply N.mod_lt; lia|].
    destruct (N.eqb_spec (n / 10) 0) as [Hz|Hnz].
    + exists [digit_char (n mod 10)].
      repeat split; [discriminate | simpl; now rewrite D |].
      unfold dec, digits_value. simpl. rewrite V.
      pose proof (N.div_mod n 10). lia.
    + destruct (IH (n / 10)%N (digit_char (n mod 10) :: acc)) as (ds & E & [Dne Dall] & Dv).
      { replace (N.of_nat (S fuel) + 1)%N with (N.succ (N.of_nat fuel + 1)) in Hn by lia.
        rewrite N.pow_succ_r' in Hn.
        apply N.Div0.div_lt_upper_bound. lia. }
      exists (ds ++ [digit_char (n mod 10)]). repeat split.
      * now rewrite E, <- app_assoc.
      * destruct ds; discriminate.
      * rewrite forallb_app, Dall. simpl. now rewrite D.
      * rewrite dec_snoc, Dv, V. pose proof (N.div_mod n 10). lia.
Qed.

Lemma digits_spec (n : N) : digit_string (digits n) /\ dec (digits n) = Z.of_N n.
Proof.
  unfold digits.
  destruct (digits_loop_spec (N.to_nat (N.log2 n)) n []) as (ds & E & D & V).
  - rewrite N2Nat.id, N.add_1_r.
    destruct n as [|p]; [reflexivity|]. now apply N.log2_spec.
  - rewrite E, app_nil_r. now split.
Qed.

(** A non-negative integer prints as its decimal digits. *)
Lemma ToString_nonneg (z : Z) :
  0 <= z -> digit_string (ToString z) /\ dec (ToString z) = z.
Proof.
  destruct z as [|p|p]; [intros _ | intros _ | lia].
  - split; [split; [discriminate | reflexivity] | reflexivity].
  - apply (digits_spec (Npos p)).
Qed.

(** A negative integer prints with a leading minus sign. *)
Lemma ToString_neg (z : Z) : z < 0 -> exists ds, ToString z = MINUS :: ds.
Proof. destruct z as [|p|p]; [lia | lia | intros _; now eexists]. Qed.

Lemma pad_loop_spec (fuel : nat) (s : jstring) (size : nat) :
  pad_loop fuel s size = repeat ZERO (Nat.min fuel (size - length s)) ++ s.
Proof.
  revert s. induction fuel as [|fuel IH]; intros s; [reflexivity|].
  cbn [pad_loop]. destruct (Nat.ltb_spec (length s) size) as [Hlt|Hge].
  - rewrite IH. cbn [length].
    replace (Nat.min (S fuel) (size - length s))
      with (S (Nat.min fuel (size - S (length s)))) by lia.
    cbn [repeat]. rewrite (repeat_cons _ ZERO), <- app_assoc. reflexivity.
  - replace (size - length s)%nat with 0%nat by lia.
    now rewrite Nat.min_0_r.
Qed.

(** The writer's [_pad] is [padStart] with zeros. *)
Lemma pad_padStart (num : Z) (size : nat) :
  _pad num size = padStart0 (ToString num) size.
Proof.
  unfold _pad, padStart0. rewrite pad_loop_spec. f_equal. f_equal. lia.
Qed.

Lemma padStart0_digits (s : jstring) (len : nat) :
  digit_string s ->
  digit_string (padStart0 s len) /\ dec (padStart0 s len) = dec s.
Proof.
  intros [Hne Hall]. unfold padStart0. rewrite dec_zeros. split; [split|reflexivity].
  - destruct s; [congruence|]. now destruct (repeat _ _).
  - rewrite forallb_app, Hall, andb_true_r.
    induction (len - length s)%nat as [|k IH]; [reflexivity | exact IH].
Qed.

Lemma pad_nonneg (z : Z) (size : nat) :
  0 <= z -> digit_string (_pad z size) /\ dec (_pad z size) = z.
Proof.
  intros Hz. rewrite pad_padStart.
  destruct (ToString_nonneg z Hz) as [D V].
  destruct (padStart0_digits (ToString z) size D) as [D' V'].
  split; [assumption | congruence].
Qed.

Lemma pad_neg (z : Z) (size : nat) : z < 0 -> In MINUS (_pad z size).
Proof.
  intros Hz. rewrite pad_padStart. unfold padStart0.
  destruct (ToString_neg z Hz) as [ds ->]. apply in_or_app. right. now left.
Qed.

Lemma digit_string_not_in (s : jstring) (c : char) :
  digit_string s -> is_digit c = false -> ~ In c s.
Proof.
  intros [_ Hall] Hc Hin. rewrite forallb_forall in Hall.
  rewrite (Hall c Hin) in Hc. discriminate.
Qed.

(** ** Doubles *)

Lemma pow2_pos (k : Z) : (0 < pow2 k)%Q.
Proof.
  destruct k as [|p|p]; cbn [pow2]; try reflexivity.
  unfold Qlt. cbn. pose proof (Z.pow_pos_nonneg 2 (Zpos p)). lia.
Qed.

Lemma Qred_Z (z : Z) : Qred (inject_Z z) = inject_Z z.
Proof.
  unfold Qred, inject_Z. cbn [Qnum Qden].
  pose proof (Z.ggcd_gcd z 1) as Hg.
  pose proof (Z.ggcd_correct_divisors z 1) as Hd.
  destruct (Z.ggcd z 1) as [g [aa bb]]. cbn [fst snd] in *.
  rewrite Z.gcd_1_r in Hg. subst g. destruct Hd as [Ha Hb].
  rewrite Z.mul_1_l in Ha, Hb. now subst.
Qed.

Lemma round_half_even_nonneg (x : Q) : (0 <= x)%Q -> 0 <= round_half_even x.
Proof.
  intros Hx. unfold round_half_even.
  assert (0 <= Qfloor x) by (change 0 with (Qfloor 0); now apply Qfloor_resp_le).
  destruct (_ ?= _)%Q; [destruct (Z.even _)| |]; lia.
Qed.

(** An integer is its own nearest integer. *)
Lemma round_half_even_Z (x : Q) (n : Z) :
  (x == inject_Z n)%Q -> round_half_even x = n.
Proof.
  intros E. unfold round_half_even. cbv zeta.
  assert (F : Qfloor x = n) by (rewrite E; apply Qfloor_Z).
  rewrite F.
  replace (x - inject_Z n ?= 1 # 2)%Q with Lt; [reflexivity|].
  symmetry. apply Qlt_alt. rewrite E.
  setoid_replace (inject_Z n - inject_Z n)%Q with 0%Q by ring.
  reflexivity.
Qed.

(** The Number value depends on the rational, not on the fraction that
    spells it. *)
Lemma nearest_double_ext (x y : Q) :
  (x == y)%Q -> nearest_double x = nearest_double y.
Proof. intros E. unfold nearest_double. now rewrite (Qred_complete x y E). Qed.

Lemma nearest_double_nonneg (x : Q) : (0 <= x)%Q -> (0 <= nearest_double x)%Q.
Proof.
  intros Hx. unfold nearest_double. cbv zeta.
  destruct (Qeq_bool (Qred x) 0); [apply Qle_refl|].
  apply Qred_le. rewrite (Qred_complete _ _ (Qred_correct _)). apply Qred_le.
  apply Qmult_le_0_compat; [|apply Qlt_le_weak, pow2_pos].
  change 0%Q with (inject_Z 0). rewrite <- Zle_Qle.
  apply round_half_even_nonneg.
  assert (Hx' : (0 <= Qred x)%Q) by (now apply Qred_le in Hx).
  apply Qle_shift_div_l; [apply pow2_pos|]. now rewrite Qmult_0_l.
Qed.

Lemma times_nonneg (x y : Q) : (0 <= x)%Q -> (0 <= y)%Q -> (0 <= times x y)%Q.
Proof.
  intros Hx Hy. apply nearest_double_nonneg.
  apply Qmult_le_0_compat; now apply nearest_double_nonneg.
Qed.

Lemma ilog2_Z (a : Z) : 0 < a -> ilog2 (inject_Z a) = Z.log2 a.
Proof.
  intros Ha. unfold ilog2, inject_Z. cbn [Qnum Qden].
  change (Z.log2 1) with 0. rewrite Z.sub_0_r.
  pose proof (Z.log2_spec a Ha) as [Hlo _].
  pose proof (Z.log2_nonneg a) as Hk.
  replace (Qle_bool (pow2 (Z.log2 a)) (a # 1)) with true; [reflexivity|].
  symmetry. apply Qle_bool_iff.
  destruct (Z.log2 a) as [|p|p] eqn:E; cbn [pow2]; try lia.
  - unfold Qle. cbn. lia.
  - unfold Qle. cbn [Qnum Qden inject_Z]. lia.
Qed.

(** An integer scaled by a power of two that is at most one. *)
Lemma scaled_Z (z : Z) (e : Z) :
  e <= 0 -> (inject_Z z / pow2 e == inject_Z (z * 2 ^ (- e)))%Q
            /\ (inject_Z (z * 2 ^ (- e)) * pow2 e == inject_Z z)%Q.
Proof.
  intros He. destruct e as [|p|p]; [| lia |].
  - cbn [pow2 Z.opp]. rewrite Z.pow_0_r, Z.mul_1_r. split; [field|ring].
  - cbn [pow2 Z.opp].
    assert (Hp : Zpos (2 ^ p) = 2 ^ Zpos p) by (now rewrite Pos2Z.inj_pow).
    rewrite <- Hp. split.
    + unfold Qdiv, Qinv, Qeq, Qmult, inject_Z. cbn. lia.
    + unfold Qeq, Qmult, inject_Z. cbn. lia.
Qed.

(** A double holds every integer of magnitude at most [2^53]. *)
Lemma nearest_double_int (z : Z) :
  Z.abs z <= MAX_EXACT -> nearest_double (inject_Z z) = inject_Z z.
Proof.
  intros Hz. unfold nearest_double. cbv zeta. rewrite Qred_Z.
  destruct (Z.eq_dec z 0) as [->|Hnz]; [reflexivity|].
  replace (Qeq_bool (inject_Z z) 0) with false.
  2:{ symmetry. apply not_true_iff_false. intros H. apply Qeq_bool_iff in H.
      unfold Qeq in H. cbn in H. lia. }
  change (Qabs (inject_Z z)) with (inject_Z (Z.abs z)).
  rewrite ilog2_Z by lia.
  destruct (Z.eq_dec (Z.abs z) MAX_EXACT) as [Hmax|Hlt].
  - unfold MAX_EXACT in Hmax.
    assert (Hc : z = 2 ^ 53 \/ z = - 2 ^ 53) by lia.
    destruct Hc as [-> | ->]; vm_compute; reflexivity.
  - assert (Hk : Z.log2 (Z.abs z) < 53).
    { apply Z.log2_lt_pow2; [lia|]. unfold MAX_EXACT in *. lia. }
    pose proof (Z.log2_nonneg (Z.abs z)).
    rewrite Z.max_l by lia.
    set (e := Z.log2 (Z.abs z) - 52).
    destruct (scaled_Z z e ltac:(lia)) as [E1 E2].
    rewrite (round_half_even_Z _ _ E1).
    rewrite (Qred_complete _ _ E2). apply Qred_Z.
Qed.

(** The rounding at work: [0.1] is no double; a tie goes to the even
    significand, also among the subnormals; the products the formatters
    and the offset computation floor or round. *)
Lemma nearest_double_samples :
  nearest_double (1 # 10) = 3602879701896397 # 36028797018963968
  /\ nearest_double (inject_Z (2 ^ 53 + 1)) = inject_Z (2 ^ 53)
  /\ nearest_double (inject_Z (2 ^ 53 + 3)) = inject_Z (2 ^ 53 + 4)
  /\ nearest_double (1 # 2 ^ 1075) = 0%Q
  /\ nearest_double (3 # 2 ^ 1075) = 1 # 2 ^ 1073
  /\ Math_floor (times (1005 # 1000) 1000) = 1004
  /\ Math_floor (times (435 # 100) 1000) = 4350
  /\ Math_round (times (5005 # 10000) 1000) = 500.
Proof. repeat split; vm_compute; reflexivity. Qed.

Lemma Number_value_ext (x y : Q) :
  (x == y)%Q -> Number_value x = Number_value y.
Proof. intros E. unfold Number_value. now rewrite (nearest_double_ext x y E). Qed.

Lemma Number_value_int (z : Z) :
  Z.abs z <= MAX_EXACT -> Number_value (inject_Z z) = Int z.
Proof.
  intros Hz. unfold Number_value. rewrite nearest_double_int by assumption.
  cbv zeta. change (Qabs (inject_Z z)) with (inject_Z (Z.abs z)).
  replace (Qle_bool (pow2 1024) (inject_Z (Z.abs z))) with false; [reflexivity|].
  symmetry. apply not_true_iff_false. intros H. apply Qle_bool_iff in H.
  assert (E : pow2 1024 = inject_Z (2 ^ 1024)) by reflexivity.
  rewrite E in H. rewrite <- Zle_Qle in H.
  assert (MAX_EXACT < 2 ^ 1024) by (vm_compute; reflexivity). lia.
Qed.

(** Sums and products of integers are exact as long as they stay within
    that magnitude. *)
Lemma dadd_int (a b : Z) :
  Z.abs (a + b) <= MAX_EXACT -> dadd (Int a) (Int b) = Int (a + b).
Proof.
  intros H. cbn [dadd as_double].
  rewrite (Number_value_ext _ (inject_Z (a + b))) by (now rewrite inject_Z_plus).
  now apply Number_value_int.
Qed.

Lemma dmul_int (a b : Z) :
  Z.abs (a * b) <= MAX_EXACT -> dmul (Int a) (Int b) = Int (a * b).
Proof.
  intros H. cbn [dmul as_double].
  rewrite (Number_value_ext _ (inject_Z (a * b))) by (now rewrite inject_Z_mult).
  now apply Number_value_int.
Qed.

Lemma int_exact (z : Z) : Z.abs z <= MAX_EXACT -> int z = Returns (Int z).
Proof. intros H. unfold int. apply Z.leb_le in H. now rewrite H. Qed.

Lemma ms_count_int (z : Z) :
  Z.abs z <= MAX_EXACT -> ms_count (Int z) = Returns (Int z).
Proof. intros H. cbn. now apply int_exact. Qed.

Lemma dadd_nan_r (a : double) : dadd a dNaN = dNaN.
Proof. now destruct a. Qed.


(** ** Timestamps of the writer *)

Lemma fields_nonneg (t : Z) :
  0 <= t ->
  0 <= hours_of t /\ 0 <= mins_of t < 60 /\ 0 <= secs_of t < 60
  /\ 0 <= millis_of t < 1000
  /\ ((hours_of t * 3600 + mins_of t * 60 + secs_of t) * 1000 + millis_of t = t).
Proof.
  intros Ht. unfold hours_of, mins_of, secs_of, millis_of, rem, floor_div.
  assert (H1 : 0 <= t / 1000) by (apply Z.div_pos; lia).
  assert (H2 : 0 <= t / 1000 / 60) by (apply Z.div_pos; lia).
  rewrite !Z.rem_mod_nonneg by lia.
  pose proof (Z.div_mod t 1000). pose proof (Z.mod_pos_bound t 1000).
  pose proof (Z.div_mod (t / 1000) 60). pose proof (Z.mod_pos_bound (t / 1000) 60).
  pose proof (Z.div_mod (t / 1000 / 60) 60).
  pose proof (Z.mod_pos_bound (t / 1000 / 60) 60).
  assert (0 <= t / 1000 / 60 / 60) by (apply Z.div_pos; lia).
  lia.
Qed.

Lemma hours_neg (t : Z) : t < 0 -> hours_of t < 0.
Proof.
  intros Ht. unfold hours_of, floor_div.
  assert (t / 1000 < 0) by (apply Z.div_lt_upper_bound; lia).
  assert (t / 1000 / 60 < 0) by (apply Z.div_lt_upper_bound; lia).
  apply Z.div_lt_upper_bound; lia.
Qed.

Lemma formatSRT_fields (seconds : Q) :
  let t := Math_floor (times seconds 1000) in
  _formatSRTTimestamp seconds
  = _pad (hours_of t) 2 ++ [COLON] ++ _pad (mins_of t) 2 ++ [COLON]
      ++ _pad (secs_of t) 2 ++ [COMMA] ++ _pad (millis_of t) 3.
Proof. reflexivity. Qed.

Lemma formatVTT_fields (seconds : Q) :
  let t := Math_floor (times seconds 1000) in
  _formatVTTTimestamp seconds
  = _pad (hours_of t) 2 ++ [COLON] ++ _pad (mins_of t) 2 ++ [COLON]
      ++ _pad (secs_of t) 2 ++ [PERIOD] ++ _pad (millis_of t) 3.
Proof. reflexivity. Qed.

(** The code units a printed integer is made of. *)
Lemma ToString_chars (z : Z) (c : char) :
  In c (ToString z) -> is_digit c = true \/ c = MINUS.
Proof.
  destruct z as [|p|p]; simpl.
  - intros [<-|[]]. now left.
  - intros Hin. left. destruct (digits_spec (Npos p)) as [[_ Hall] _].
    rewrite forallb_forall in Hall. now apply Hall.
  - intros [<-|Hin]; [now right|]. left.
    destruct (digits_spec (Npos p)) as [[_ Hall] _].
    rewrite forallb_forall in Hall. now apply Hall.
Qed.

Lemma pad_chars (z : Z) (size : nat) (c : char) :
  In c (_pad z size) -> is_digit c = true \/ c = MINUS.
Proof.
  rewrite pad_padStart. unfold padStart0. rewrite in_app_iff.
  intros [Hin|Hin]; [|now apply ToString_chars in Hin].
  apply repeat_spec in Hin. subst. now left.
Qed.

Lemma pad_no_separator (z : Z) (size : nat) (c : char) :
  is_digit c = false -> c <> MINUS -> ~ In c (_pad z size).
Proof.
  intros Hd Hm Hin. apply pad_chars in Hin as [H|H]; congruence.
Qed.

(** Both outputs, cut at the separator. *)
Lemma timestamp_around_separator (seconds : Q) :
  exists hms mmm : jstring,
    _formatSRTTimestamp seconds = hms ++ COMMA :: mmm
    /\ _formatVTTTimestamp seconds = hms ++ PERIOD :: mmm
    /\ ~ In COMMA hms /\ ~ In PERIOD hms
    /\ ~ In COMMA mmm /\ ~ In PERIOD mmm.
Proof.
  set (t := Math_floor (times seconds 1000)).
  exists (_pad (hours_of t) 2 ++ [COLON] ++ _pad (mins_of t) 2 ++ [COLON]
            ++ _pad (secs_of t) 2), (_pad (millis_of t) 3).
  split; [|split].
  - rewrite formatSRT_fields. fold t. now rewrite <- !app_assoc.
  - rewrite formatVTT_fields. fold t. now rewrite <- !app_assoc.
  - clearbody t.
    assert (Hpad : forall z n c, (c = COMMA \/ c = PERIOD) -> ~ In c (_pad z n)).
    { intros z n c [-> | ->]; apply pad_no_separator; (reflexivity || discriminate). }
    repeat split; rewrite ?in_app_iff; simpl;
      intros H; repeat destruct H as [H|H];
      try discriminate H; try contradiction;
      (eapply Hpad; [|exact H]; tauto).
Qed.

(** C9.  The two formatters of the writer print the same text around one
    separator: a comma for SRT, a period for WebVTT.  Neither character
    occurs anywhere else in either output. *)
Theorem formatters_differ_by_separator (seconds : Q) :
  exists hms mmm : jstring,
    _formatSRTTimestamp seconds = hms ++ COMMA :: mmm
    /\ _formatVTTTimestamp seconds = hms ++ PERIOD :: mmm
    /\ ~ In COMMA hms /\ ~ In PERIOD hms
    /\ ~ In COMMA mmm /\ ~ In PERIOD mmm.
Proof. exact (timestamp_around_separator seconds). Qed.

(** C1, as amended.  The formatter of the shifting tool clamps a negative
    count of milliseconds to zero and never prints a minus sign; the
    formatter of the writer has no clamp, and prints a minus sign exactly
    when [floor (seconds * 1000)] is negative. *)
Theorem format_clamp (z : Z) (totalMs : num) (seconds : Q) :
  (z < 0 -> formatTimestamp (Int z) = lit "00:00:00,000")
  /\ ~ In MINUS (formatTimestamp totalMs)
  /\ (In MINUS (_formatSRTTimestamp seconds) <-> Math_floor (times seconds 1000) < 0).
Proof.
  split; [|split].
  - intros Hz. unfold formatTimestamp, lt0.
    apply Z.ltb_lt in Hz. rewrite Hz. reflexivity.
  - assert (Hfmt : forall t, 0 <= t -> ~ In MINUS (formatTimestamp (Int t))).
    { intros t Ht. destruct (fields_nonneg t Ht) as (Hh & Hm & Hs & Hms & _).
      unfold formatTimestamp, lt0.
      replace (t <? 0) with false by (symmetry; apply Z.ltb_ge; lia).
      cbn [nrem nfloor_div String_]. rewrite <- !pad_padStart.
      fold (hours_of t) (mins_of t) (secs_of t) (millis_of t).
      rewrite !in_app_iff. simpl.
      intros H; repeat destruct H as [H|H]; try discriminate H; try contradiction;
        (eapply digit_string_not_in; [eapply pad_nonneg| |exact H];
         [lia | reflexivity]). }
    destruct totalMs as [|t].
    + vm_compute. intros H; repeat destruct H as [H|H]; try discriminate H; contradiction.
    + destruct (Z.ltb_spec t 0) as [Hneg|Hpos]; [|now apply Hfmt].
      unfold formatTimestamp, lt0. apply Z.ltb_lt in Hneg. rewrite Hneg.
      vm_compute. intros H; repeat destruct H as [H|H]; try discriminate H; contradiction.
  - rewrite formatSRT_fields. set (t := Math_floor (times seconds 1000)). cbv zeta.
    split.
    + intros Hin. destruct (Z.ltb_spec t 0) as [Hneg|Hpos]; [assumption|].
      exfalso. destruct (fields_nonneg t Hpos) as (Hh & Hm & Hs & Hms & _).
      revert Hin. rewrite !in_app_iff. simpl.
      intros H; repeat destruct H as [H|H]; try discriminate H; try contradiction;
        (eapply digit_string_not_in; [eapply pad_nonneg| |exact H];
         [lia | reflexivity]).
    + intros Hneg. apply in_or_app. left. apply pad_neg. now apply hours_neg.
Qed.

Lemma format_clamp_witness :
  -5000 < 0
  /\ formatTimestamp (Int (-5000)) = lit "00:00:00,000"
  /\ ~ In MINUS (formatTimestamp (Int (-5000)))
  /\ (In MINUS (_formatSRTTimestamp (-5)) <-> Math_floor (times (-5) 1000) < 0).
Proof.
  assert (H : -5000 < 0) by lia.
  destruct (format_clamp (-5000) (Int (-5000)) (-5)) as (A & B & C).
  split; [exact H|]. split; [exact (A H)|]. split; assumption.
Defined.

(** C1, as stated, fails on the writer: [_formatSRTTimestamp(-5)] is
    ["-1:-1:-5,000"], not ["00:00:00,000"]. *)
Lemma format_clamp_counterexample :
  _formatSRTTimestamp (-5) = lit "-1:-1:-5,000"
  /\ _formatSRTTimestamp (-5) <> lit "00:00:00,000".
Proof. split; [vm_compute; reflexivity | vm_compute; discriminate]. Qed.

(** ** The track generators *)

Lemma mapi_from_length {A B : Type} (f : A -> nat -> B) (l : list A) (i : nat) :
  length (mapi_from i f l) = length l.
Proof.
  revert i. induction l as [|x l IH]; intros i; simpl; [reflexivity|].
  now rewrite IH.
Qed.

Lemma mapi_from_nth {A B : Type} (f : A -> nat -> B) (l : list A) (i k : nat) :
  nth_error (mapi_from i f l) k
  = option_map (fun x => f x (i + k)%nat) (nth_error l k).
Proof.
  revert i k. induction l as [|x l IH]; intros i k.
  - now destruct k.
  - destruct k as [|k]; simpl.
    + now rewrite Nat.add_0_r.
    + rewrite IH. now rewrite Nat.add_succ_comm.
Qed.

Lemma mapi_length {A B : Type} (f : A -> nat -> B) (l : list A) :
  length (mapi f l) = length l.
Proof. apply mapi_from_length. Qed.

Lemma mapi_nth {A B : Type} (f : A -> nat -> B) (l : list A) (k : nat) :
  nth_error (mapi f l) k = option_map (fun x => f x k) (nth_error l k).
Proof. unfold mapi. now rewrite mapi_from_nth. Qed.

Lemma In_firstn_in_list {A : Type} (n : nat) (l : list A) (x : A) :
  In x (firstn n l) -> In x l.
Proof. intros H. rewrite <- (firstn_skipn n l). apply in_or_app. now left. Qed.

Lemma In_skipn_in_list {A : Type} (n : nat) (l : list A) (x : A) :
  In x (skipn n l) -> In x l.
Proof. intros H. rewrite <- (firstn_skipn n l). apply in_or_app. now right. Qed.

(** *** Code units of the pieces *)

Section Units.

Variable P : char -> Prop.

Lemma trimStart_units (s : jstring) : Forall P s -> Forall P (trimStart s).
Proof.
  induction 1 as [|c s Hc Hs IH]; simpl; [constructor|].
  destruct (is_ws c); [assumption | now constructor].
Qed.

Lemma trim_units (s : jstring) : Forall P s -> Forall P (trim s).
Proof.
  intros H. unfold trim, trimEnd.
  apply Forall_rev, trimStart_units, Forall_rev, trimStart_units, H.
Qed.

Lemma split_units (sep : char) (s : jstring) :
  Forall P s -> Forall (Forall P) (split sep s).
Proof.
  induction 1 as [|c s Hc Hs IH]; cbn [split]; [repeat constructor|].
  destruct (c =? sep)%N; [now repeat constructor|].
  destruct (split sep s) as [|w ws]; [repeat constructor; assumption|].
  inversion IH; subst. constructor; [now constructor | assumption].
Qed.

Lemma join_units (p : jstring) (l : list jstring) :
  Forall P p -> Forall (Forall P) l -> Forall P (join p l).
Proof.
  intros Hp. induction 1 as [|x l Hx Hl IH]; [constructor|].
  rewrite join_cons. apply Forall_app. split; [assumption|].
  destruct l; [constructor|]. apply Forall_app. now split.
Qed.

Hypothesis P_space : P SPACE.

Lemma step_units (maxLength : nat) (st : list jstring * jstring) (w : jstring) :
  Forall (Forall P) (fst st) -> Forall P (snd st) -> Forall P w ->
  Forall (Forall P) (fst (wrap_step maxLength st w))
  /\ Forall P (snd (wrap_step maxLength st w)).
Proof.
  destruct st as [lines cur]. cbn [fst snd]. intros Hl Hc Hw.
  unfold wrap_step. destruct (_ <? _)%nat.
  - destruct (truthy cur); cbn [fst snd]; (split; [|assumption || constructor]);
      apply Forall_app; split; try assumption;
      repeat constructor; [now apply trim_units | assumption].
  - cbn [fst snd]. split; [assumption|]. destruct (truthy cur); [|assumption].
    apply Forall_app. split; [assumption|]. now constructor.
Qed.

Lemma fold_units (maxLength : nat) (ws : list jstring)
    (st : list jstring * jstring) :
  Forall (Forall P) ws ->
  Forall (Forall P) (fst st) -> Forall P (snd st) ->
  Forall (Forall P) (finish (fold_left (wrap_step maxLength) ws st)).
Proof.
  intros Hws. revert st. induction Hws as [|w ws Hw Hws IH]; intros st Hl Hc.
  - destruct st as [lines cur]. simpl in *. destruct (truthy cur); [|assumption].
    apply Forall_app. split; [assumption|]. repeat constructor. now apply trim_units.
  - cbn [fold_left]. destruct (step_units maxLength st w Hl Hc Hw). now apply IH.
Qed.

(** Every code unit of a returned line is a code unit of the text or a
    space. *)
Lemma split_lines_units (text : jstring) (maxLength : nat) :
  Forall P text -> Forall (Forall P) (_splitTextIntoLines text maxLength).
Proof.
  intros Ht. unfold _splitTextIntoLines.
  destruct (_ <=? _)%nat; [now repeat constructor|].
  pose proof (split_units SPACE text Ht) as Hws.
  destruct (_ <? _)%nat.
  - repeat constructor; apply join_units; try (now repeat constructor).
    + apply Forall_forall. intros w Hw. rewrite Forall_forall in Hws.
      apply Hws. eapply In_firstn_in_list. exact Hw.
    + apply Forall_forall. intros w Hw. rewrite Forall_forall in Hws.
      apply Hws. eapply In_skipn_in_list. exact Hw.
  - rewrite greedy_lines_fold. apply fold_units; [assumption | constructor..].
Qed.

End Units.

Lemma join_concat (p : jstring) (bss : list (list jstring)) :
  Forall (fun b => b <> []) bss ->
  join p (map (join p) bss) = join p (concat bss).
Proof.
  induction 1 as [|b bss Hb Hbss IH]; [reflexivity|].
  destruct bss as [|b' bss'].
  - simpl. now rewrite app_nil_r.
  - change (map (join p) (b :: b' :: bss'))
      with (join p b :: join p b' :: map (join p) bss').
    rewrite join_cons. change (join p b' :: map (join p) bss')
      with (map (join p) (b' :: bss')).
    cbn iota. rewrite IH.
    change (concat (b :: b' :: bss')) with (b ++ concat (b' :: bss')).
    rewrite join_app; [reflexivity | assumption |].
    inversion Hbss; subst. destruct b'; [congruence | discriminate].
Qed.

Lemma mapi_from_map {A B C : Type} (f : A -> nat -> B) (g : B -> C)
    (l : list A) (i : nat) :
  mapi_from i (fun x k => g (f x k)) l = map g (mapi_from i f l).
Proof.
  revert i. induction l as [|x l IH]; intros i; simpl; [reflexivity|].
  now rewrite IH.
Qed.

Lemma mapi_from_Forall {A B : Type} (Q : B -> Prop) (f : A -> nat -> B)
    (l : list A) (i : nat) :
  (forall x k, In x l -> Q (f x k)) -> Forall Q (mapi_from i f l).
Proof.
  revert i. induction l as [|x l IH]; intros i H; simpl; constructor.
  - apply H. now left.
  - apply IH. intros y k Hy. apply H. now right.
Qed.

Lemma no_newline_forallb (s : jstring) :
  no_newline s -> forallb (fun c => negb (c =? NEWLINE)%N) s = true.
Proof.
  intros H. apply forallb_forall. intros c Hc.
  unfold no_newline in H. rewrite Forall_forall in H.
  apply negb_true_iff, N.eqb_neq. now apply H.
Qed.

Lemma pad_no_newline (z : Z) (size : nat) : no_newline (_pad z size).
Proof.
  apply Forall_forall. intros c Hc ->.
  revert Hc. now apply pad_no_separator.
Qed.

Lemma ToString_no_newline (z : Z) : no_newline (ToString z).
Proof.
  apply Forall_forall. intros c Hc ->.
  apply ToString_chars in Hc as [H|H]; discriminate.
Qed.

Lemma formatSRT_no_newline (seconds : Q) : no_newline (_formatSRTTimestamp seconds).
Proof.
  rewrite formatSRT_fields. cbv zeta.
  repeat (apply Forall_app; split); try apply pad_no_newline;
    repeat constructor; discriminate.
Qed.

Lemma formatVTT_no_newline (seconds : Q) : no_newline (_formatVTTTimestamp seconds).
Proof.
  rewrite formatVTT_fields. cbv zeta.
  repeat (apply Forall_app; split); try apply pad_no_newline;
    repeat constructor; discriminate.
Qed.

Section Blocks.

Variable fmt : Q -> jstring.
Hypothesis fmt_no_newline : forall q, no_newline (fmt q).

Let lines_at (seg : segment) (i : nat) : list jstring :=
  block_lines fmt seg (Z.of_nat i + 1).

Lemma block_lines_no_newline (seg : segment) (index : Z) :
  no_newline (seg_text seg) ->
  Forall no_newline (block_lines fmt seg index).
Proof.
  intros Ht. unfold block_lines.
  repeat (apply Forall_app; split).
  - repeat constructor; [apply ToString_no_newline|].
    repeat (apply Forall_app; split); try apply fmt_no_newline.
    repeat constructor; discriminate.
  - apply split_lines_units; [discriminate | exact Ht].
  - repeat constructor.
Qed.

(** The lines of a track: splitting the joined blocks at line feeds gives
    the lines of the blocks, one block after the other. *)
Lemma track_lines (segments : list segment) :
  segments <> [] ->
  Forall (fun seg => no_newline (seg_text seg)) segments ->
  split NEWLINE
    (join [NEWLINE] (mapi (fun seg i => join [NEWLINE] (lines_at seg i)) segments))
  = concat (mapi lines_at segments).
Proof.
  intros Hne Hall. unfold mapi.
  rewrite (mapi_from_map lines_at (join [NEWLINE])).
  rewrite join_concat.
  2:{ apply mapi_from_Forall. intros seg k _. discriminate. }
  apply split_join.
  - destruct segments; [congruence | discriminate].
  - apply Forall_concat, mapi_from_Forall. intros seg k Hin.
    rewrite Forall_forall in Hall.
    eapply Forall_impl; [|apply block_lines_no_newline, Hall, Hin].
    apply no_newline_forallb.
Qed.

End Blocks.

(** C7.  Both generators make one block per segment, in the order of the
    segments; the block at position [i] (from 0) is the index line [i + 1],
    the timing line, the lines of the split text and an empty line, joined
    by line feeds; the track is the blocks joined by line feeds, after the
    header for WebVTT.  When no text holds a line feed, the lines of the
    SRT track are exactly the lines of its blocks in order. *)
Theorem generate_blocks (segments : list segment) :
  let srtBlocks := mapi srtBlock segments in
  let vttCues := mapi vttCue segments in
  _generateSRT segments = join [NEWLINE] srtBlocks
  /\ _generateWebVTT segments
     = lit "WEBVTT" ++ [NEWLINE; NEWLINE] ++ join [NEWLINE] vttCues
  /\ length srtBlocks = length segments
  /\ length vttCues = length segments
  /\ (forall (i : nat) (seg : segment),
       nth_error segments i = Some seg ->
       nth_error srtBlocks i
       = Some (join [NEWLINE]
                 (block_lines _formatSRTTimestamp seg (Z.of_nat i + 1)))
       /\ nth_error vttCues i
          = Some (join [NEWLINE]
                    (block_lines _formatVTTTimestamp seg (Z.of_nat i + 1)))
       /\ length (block_lines _formatSRTTimestamp seg (Z.of_nat i + 1))
          = (3 + length (_splitTextIntoLines (seg_text seg) 42))%nat)
  /\ (segments <> [] ->
      Forall (fun seg => ~ In NEWLINE (seg_text seg)) segments ->
      split NEWLINE (_generateSRT segments)
      = concat (mapi (fun seg i =>
                        block_lines _formatSRTTimestamp seg (Z.of_nat i + 1))
                  segments)).
Proof.
  cbv zeta. split; [reflexivity|]. split; [reflexivity|].
  split; [apply mapi_length|]. split; [apply mapi_length|]. split.
  - intros i seg Hi. rewrite !mapi_nth, Hi. cbn [option_map].
    split; [reflexivity|]. split; [reflexivity|].
    unfold block_lines. rewrite !length_app. simpl. lia.
  - intros Hne Hall.
    apply (track_lines _formatSRTTimestamp formatSRT_no_newline segments Hne).
    eapply Forall_impl; [|exact Hall]. intros seg H.
    apply Forall_forall. intros c Hc ->. contradiction.
Qed.

Lemma generate_blocks_witness :
  let seg := mkSegment 0 1 4 (lit "Hello world") None None in
  nth_error [seg] 0 = Some seg
  /\ [seg] <> []
  /\ Forall (fun seg => ~ In NEWLINE (seg_text seg)) [seg]
  /\ nth_error (mapi srtBlock [seg]) 0
     = Some (join [NEWLINE] (block_lines _formatSRTTimestamp seg 1))
  /\ split NEWLINE (_generateSRT [seg])
     = [lit "1"; lit "00:00:01,000 --> 00:00:04,000"; lit "Hello world"; []].
Proof.
  intros seg.
  assert (Hne : [seg] <> []) by discriminate.
  assert (Hall : Forall (fun seg => ~ In NEWLINE (seg_text seg)) [seg]).
  { repeat constructor. simpl. intros H.
    repeat destruct H as [H|H]; try discriminate H; contradiction. }
  destruct (generate_blocks [seg]) as (_ & _ & _ & _ & H & L).
  destruct (H 0%nat seg eq_refl) as (H1 & _ & _).
  split; [reflexivity|]. split; [exact Hne|]. split; [exact Hall|].
  split; [exact H1|]. exact (L Hne Hall).
Defined.

(** ** The parser of the shifting tool *)

Lemma is_digit_cases (c : char) :
  is_digit c = true ->
  (c = 48 \/ c = 49 \/ c = 50 \/ c = 51 \/ c = 52 \/ c = 53 \/ c = 54
   \/ c = 55 \/ c = 56 \/ c = 57)%N.
Proof.
  unfold is_digit. intros [H1 H2]%andb_prop.
  apply N.leb_le in H1, H2. lia.
Qed.

Ltac digit_cases c H :=
  apply is_digit_cases in H;
  repeat (destruct H as [H|H]); subst c.

Lemma digit_not_ws (c : char) : is_digit c = true -> is_ws c = false.
Proof. intros H. digit_cases c H; reflexivity. Qed.

Lemma digit_string_word (s : jstring) : digit_string s -> word s.
Proof.
  intros [Hne Hall]. apply solid_word; [assumption|].
  rewrite forallb_forall in *. intros c Hc.
  now rewrite digit_not_ws by now apply Hall.
Qed.

Lemma dec_nonneg (s : jstring) : 0 <= dec s.
Proof.
  unfold dec, digits_value.
  assert (H : forall acc, 0 <= acc ->
            0 <= fold_left (fun a c => a * 10 + digit_val c) s acc).
  { induction s as [|c s IH]; intros acc Hacc; simpl; [assumption|].
    apply IH. unfold digit_val. lia. }
  apply H. lia.
Qed.

Lemma span_all (p : char -> bool) (s : jstring) :
  forallb p s = true -> span p s = (s, []).
Proof.
  induction s as [|c s IH]; [reflexivity|]. simpl.
  intros [Hc Hs]%andb_prop. now rewrite Hc, (IH Hs).
Qed.

(** [Number] of a run of digits is its decimal value. *)
Lemma Number_digits (s : jstring) :
  digit_string s -> Number_ s = Number_value (inject_Z (dec s)).
Proof.
  intros Hd. pose proof (tidy_trim s (word_tidy s (digit_string_word s Hd))) as Ht.
  destruct Hd as [Hne Hall]. unfold Number_. rewrite Ht.
  destruct s as [|c s]; [congruence|].
  cbn [forallb] in Hall. apply andb_prop in Hall as [Hc Hs].
  assert (Hnd : NonDecimalIntegerLiteral (c :: s) = None).
  { unfold NonDecimalIntegerLiteral. destruct s as [|d s]; [reflexivity|].
    cbn [forallb] in Hs. apply andb_prop in Hs as [Hd _].
    destruct (negb (c =? ZERO)%N); [reflexivity|].
    digit_cases d Hd; reflexivity. }
  rewrite Hnd.
  assert (Hsign : strip_sign (c :: s) = (false, c :: s)).
  { unfold strip_sign. digit_cases c Hc; reflexivity. }
  rewrite Hsign.
  assert (Hinf : JS.eqb (c :: s) INFINITY = false).
  { unfold INFINITY. cbn [JS.eqb]. digit_cases c Hc; reflexivity. }
  rewrite Hinf. unfold StrUnsignedDecimalLiteral.
  rewrite span_all by (cbn [forallb]; now rewrite Hc, Hs).
  cbn [truthy negb andb length Z.of_nat Z.opp]. rewrite app_nil_r.
  apply Number_value_ext. cbn [pow10]. apply Qmult_1_r.
Qed.

Lemma digit_string_no_unit (s : jstring) (c : char) :
  digit_string s -> is_digit c = false ->
  forallb (fun d => negb (d =? c)%N) s = true.
Proof.
  intros [_ Hall] Hc. rewrite forallb_forall in *. intros d Hd.
  apply negb_true_iff, N.eqb_neq. intros ->.
  rewrite (Hall c Hd) in Hc. discriminate.
Qed.

Lemma split_stamp (h m s ms : jstring) :
  digit_string h -> digit_string m -> digit_string s -> digit_string ms ->
  split COMMA (stamp h m s ms) = [h ++ [COLON] ++ m ++ [COLON] ++ s; ms]
  /\ split COLON (h ++ [COLON] ++ m ++ [COLON] ++ s) = [h; m; s].
Proof.
  intros Hh Hm Hs Hms. split.
  - unfold stamp.
    replace (h ++ [COLON] ++ m ++ [COLON] ++ s ++ [COMMA] ++ ms)
      with ((h ++ [COLON] ++ m ++ [COLON] ++ s) ++ COMMA :: ms)
      by (now rewrite <- !app_assoc).
    rewrite split_app_sep.
    + now rewrite split_without by now apply digit_string_no_unit.
    + rewrite !forallb_app.
      repeat (apply andb_true_intro; split); try reflexivity;
        now apply digit_string_no_unit.
  - change (h ++ [COLON] ++ m ++ [COLON] ++ s)
      with (h ++ COLON :: (m ++ COLON :: s)).
    rewrite !split_app_sep by now apply digit_string_no_unit.
    now rewrite split_without by now apply digit_string_no_unit.
Qed.

(** A timestamp in that shape parses to its count of milliseconds. *)
Lemma parse_stamp (h m s ms : jstring) :
  digit_string h -> digit_string m -> digit_string s -> digit_string ms ->
  let t := (dec h * 3600 + dec m * 60 + dec s) * 1000 + dec ms in
  t <= MAX_EXACT ->
  parseTimestamp (Some (stamp h m s ms)) = Returns (Int t).
Proof.
  intros Hh Hm Hs Hms t Ht.
  pose proof (dec_nonneg h). pose proof (dec_nonneg m).
  pose proof (dec_nonneg s). pose proof (dec_nonneg ms).
  destruct (split_stamp h m s ms Hh Hm Hs Hms) as [E1 E2].
  unfold parseTimestamp. rewrite E1. cbn [hd nth_error]. rewrite E2.
  cbn [map nth_error ToNumber Number_opt].
  rewrite !Number_digits by assumption. subst t.
  rewrite !Number_value_int by lia.
  change (dFin 3600) with (as_double (Int 3600)).
  change (dFin 60) with (as_double (Int 60)).
  change (dFin 1000) with (as_double (Int 1000)).
  rewrite !dmul_int by lia. rewrite !dadd_int by lia.
  rewrite dmul_int by lia. now rewrite dadd_int by lia.
Qed.

(** *** Runs that cannot throw *)






(** Without a comma there is no milliseconds field, and the sum is
    [NaN]. *)
Lemma parse_without_comma (ts : jstring) :
  ~ In COMMA ts -> parseTimestamp (Some ts) = Returns NaN.
Proof.
  intros Hno. unfold parseTimestamp.
  rewrite (split_without COMMA ts).
  2:{ apply forallb_forall. intros c Hc. apply negb_true_iff, N.eqb_neq.
      intros ->. contradiction. }
  cbn [hd nth_error Number_opt]. now rewrite dadd_nan_r.
Qed.

Lemma formatVTT_no_comma (seconds : Q) : ~ In COMMA (_formatVTTTimestamp seconds).
Proof.
  destruct (timestamp_around_separator seconds) as (hms & mmm & _ & E & H1 & _ & H2 & _).
  rewrite E, in_app_iff. simpl. intros [H|[H|H]]; [tauto | discriminate | tauto].
Qed.

Lemma floor_nonneg (x : Q) : (0 <= x)%Q -> 0 <= Math_floor (times x 1000).
Proof.
  intros Hx. unfold Math_floor.
  change 0 with (Qfloor 0). apply Qfloor_resp_le.
  apply times_nonneg; [assumption | discriminate].
Qed.

Lemma formatSRT_stamp (t : Z) :
  _pad (hours_of t) 2 ++ [COLON] ++ _pad (mins_of t) 2 ++ [COLON]
    ++ _pad (secs_of t) 2 ++ [COMMA] ++ _pad (millis_of t) 3
  = stamp (_pad (hours_of t) 2) (_pad (mins_of t) 2) (_pad (secs_of t) 2)
      (_pad (millis_of t) 3).
Proof. reflexivity. Qed.

(** The shifting tool's own formatter prints the same text as the SRT
    formatter of the writer on a count of milliseconds that is not
    negative. *)
Lemma formatTimestamp_stamp (t : Z) :
  0 <= t ->
  formatTimestamp (Int t)
  = stamp (_pad (hours_of t) 2) (_pad (mins_of t) 2) (_pad (secs_of t) 2)
      (_pad (millis_of t) 3).
Proof.
  intros Ht. unfold formatTimestamp, lt0.
  replace (t <? 0) with false by (symmetry; apply Z.ltb_ge; lia).
  cbn [nrem nfloor_div String_]. now rewrite <- !pad_padStart.
Qed.

Lemma parse_fields (t : Z) :
  0 <= t <= MAX_EXACT ->
  parseTimestamp
    (Some (stamp (_pad (hours_of t) 2) (_pad (mins_of t) 2)
             (_pad (secs_of t) 2) (_pad (millis_of t) 3)))
  = Returns (Int t).
Proof.
  intros [Ht Hmax].
  destruct (fields_nonneg t Ht) as (Hh & Hm & Hs & Hms & Hsum).
  destruct (pad_nonneg (hours_of t) 2 Hh) as [Dh Vh].
  destruct (pad_nonneg (mins_of t) 2 (proj1 Hm)) as [Dm Vm].
  destruct (pad_nonneg (secs_of t) 2 (proj1 Hs)) as [Ds Vs].
  destruct (pad_nonneg (millis_of t) 3 (proj1 Hms)) as [Dms Vms].
  rewrite parse_stamp by (rewrite ?Vh, ?Vm, ?Vs, ?Vms; (assumption || lia)).
  rewrite Vh, Vm, Vs, Vms, Hsum. reflexivity.
Qed.

(** C5, as amended.  For every seconds value that is not negative and whose
    count of milliseconds is at most [2^53], parsing the comma-separated
    timestamp gives back the count the formatter printed, which is the
    floor of the product [x * 1000] as a double computes it; this holds for
    the formatter of the writer and for the formatter of the shifting tool.
    Parsing the period-separated timestamp gives [NaN]. *)
Theorem parse_format_roundtrip (x : Q) :
  (0 <= x)%Q ->
  Math_floor (times x 1000) <= MAX_EXACT ->
  parseTimestamp (Some (_formatSRTTimestamp x))
  = Returns (Int (Math_floor (times x 1000)))
  /\ parseTimestamp (Some (formatTimestamp (Int (Math_floor (times x 1000)))))
     = Returns (Int (Math_floor (times x 1000)))
  /\ parseTimestamp (Some (_formatVTTTimestamp x)) = Returns NaN.
Proof.
  intros Hx Hmax. pose proof (floor_nonneg x Hx) as Ht. split; [|split].
  - rewrite formatSRT_fields. cbv zeta. rewrite formatSRT_stamp.
    now apply parse_fields.
  - rewrite formatTimestamp_stamp by assumption. now apply parse_fields.
  - apply parse_without_comma, formatVTT_no_comma.
Qed.

Lemma parse_format_roundtrip_witness :
  (0 <= 1005 # 1000)%Q
  /\ Math_floor (times (1005 # 1000) 1000) <= MAX_EXACT
  /\ Math_floor (times (1005 # 1000) 1000) = 1004
  /\ _formatSRTTimestamp (1005 # 1000) = lit "00:00:01,004"
  /\ parseTimestamp (Some (_formatSRTTimestamp (1005 # 1000)))
     = Returns (Int (Math_floor (times (1005 # 1000) 1000))).
Proof.
  assert (H1 : (0 <= 1005 # 1000)%Q) by discriminate.
  assert (H2 : Math_floor (times (1005 # 1000) 1000) <= MAX_EXACT)
    by (vm_compute; discriminate).
  split; [exact H1|]. split; [exact H2|].
  split; [vm_compute; reflexivity|]. split; [vm_compute; reflexivity|].
  exact (proj1 (parse_format_roundtrip (1005 # 1000) H1 H2)).
Defined.

(** C5, as stated, fails.  For the period separator the parser splits at a
    comma, finds no milliseconds field in ["00:00:01.000"], and returns
    [NaN] where [floor (1 * 1000)] is [1000].  For the comma separator the
    count is the floor of the double product, not of the exact one: the
    floor of [1.005 * 1000] is [1005], but the double nearest to [1.005]
    lies below it, the product is a double below [1005], and the formatter
    prints [,004], which parses to [1004]. *)
Lemma parse_format_roundtrip_counterexample :
  _formatVTTTimestamp 1 = lit "00:00:01.000"
  /\ Qfloor (1 * 1000) = 1000
  /\ parseTimestamp (Some (_formatVTTTimestamp 1)) = Returns NaN
  /\ Qfloor ((1005 # 1000) * 1000) = 1005
  /\ _formatSRTTimestamp (1005 # 1000) = lit "00:00:01,004"
  /\ parseTimestamp (Some (_formatSRTTimestamp (1005 # 1000)))
     = Returns (Int 1004).
Proof. repeat split; vm_compute; reflexivity. Qed.

(** *** Fields that are missing or not numeric *)

Lemma mapM_Forall2 {A B : Type} (f : A -> outcome B) (l : list A) (ys : list B) :
  mapM f l = Returns ys -> Forall2 (fun x y => f x = Returns y) l ys.
Proof.
  revert ys. induction l as [|x l IH]; intros ys; cbn [mapM].
  - intros E. injection E as <-. constructor.
  - destruct (f x) as [y|e|] eqn:Ex; cbn [bind]; try discriminate.
    destruct (mapM f l) as [ys'|e|]; cbn [bind]; try discriminate.
    intros E. injection E as <-. constructor; [assumption | now apply IH].
Qed.

Lemma Forall2_nth {A B : Type} (R : A -> B -> Prop) (l : list A) (ys : list B)
    (i : nat) :
  Forall2 R l ys ->
  match nth_error l i with
  | Some x => exists y, nth_error ys i = Some y /\ R x y
  | None => nth_error ys i = None
  end.
Proof.
  intros H. revert i. induction H as [|x y l ys Hxy H IH]; intros i.
  - now destruct i.
  - destruct i as [|i]; simpl; [now exists y | apply IH].
Qed.




(** *** The line loop *)

Lemma formatTimestamp_no_newline (n : num) : no_newline (formatTimestamp n).
Proof.
  assert (Hz : no_newline (formatTimestamp (Int 0)))
    by (vm_compute; repeat constructor; discriminate).
  destruct n as [|t].
  - vm_compute. repeat constructor; discriminate.
  - destruct (Z.ltb_spec t 0) as [Hneg|Hpos].
    + unfold formatTimestamp, lt0 in *. apply Z.ltb_lt in Hneg.
      rewrite Hneg. exact Hz.
    + rewrite formatTimestamp_stamp by assumption. unfold stamp.
      repeat (apply Forall_app; split); try apply pad_no_newline;
        repeat constructor; discriminate.
Qed.

Lemma split_pieces (sep : char) (s : jstring) :
  Forall (Forall (fun c => c <> sep)) (split sep s).
Proof.
  induction s as [|c s IH]; cbn [split]; [repeat constructor|].
  destruct (N.eqb_spec c sep) as [->|Hne]; [now repeat constructor|].
  destruct (split sep s) as [|w ws]; [repeat constructor; assumption|].
  inversion IH; subst. constructor; [now constructor | assumption].
Qed.

(** What the loop pushes for one line. *)
Lemma shiftLine_cases (offsetMs : Z) (line out : jstring) :
  shiftLine offsetMs line = Returns out ->
  (includes TIMING_MARK line = false /\ out = line)
  \/ (includes TIMING_MARK line = true
      /\ exists s e, out = formatTimestamp s ++ ARROW ++ formatTimestamp e).
Proof.
  unfold shiftLine. destruct (includes TIMING_MARK line).
  - intros E. right. split; [reflexivity|].
    destruct (parseTimestamp (nth_error (split SPACE line) 0)) as [a| |];
      cbn [bind] in E; try discriminate.
    destruct (parseTimestamp (nth_error (split SPACE line) 2)) as [b| |];
      cbn [bind] in E; try discriminate.
    destruct (ms_count (dadd a (Int offsetMs))) as [s| |];
      cbn [bind] in E; try discriminate.
    destruct (ms_count (dadd b (Int offsetMs))) as [e| |];
      cbn [bind] in E; try discriminate.
    injection E as <-. now exists s, e.
  - intros E. injection E as <-. now left.
Qed.


(** *** Timing lines in the tool's own form *)

Lemma startsWith_app (p y : jstring) : startsWith p (p ++ y) = true.
Proof.
  induction p as [|c p IH]; [reflexivity|]. simpl. now rewrite N.eqb_refl.
Qed.

Lemma includes_app (p x y : jstring) : includes p (x ++ p ++ y) = true.
Proof.
  induction x as [|c x IH].
  - simpl. destruct (p ++ y) eqn:E; cbn [includes];
      rewrite <- E, startsWith_app; reflexivity.
  - cbn [app includes]. rewrite IH. apply orb_true_r.
Qed.

Lemma stamp_no_space (h m s ms : jstring) :
  digit_string h -> digit_string m -> digit_string s -> digit_string ms ->
  forallb (fun c => negb (c =? SPACE)%N) (stamp h m s ms) = true.
Proof.
  intros Hh Hm Hs Hms. unfold stamp. rewrite !forallb_app.
  repeat (apply andb_true_intro; split); try reflexivity;
    now apply digit_string_no_unit.
Qed.

Lemma formatTimestamp_no_space (t : Z) :
  0 <= t ->
  forallb (fun c => negb (c =? SPACE)%N) (formatTimestamp (Int t)) = true.
Proof.
  intros Ht. rewrite formatTimestamp_stamp by assumption.
  destruct (fields_nonneg t Ht) as (Hh & Hm & Hs & Hms & _).
  apply stamp_no_space; apply pad_nonneg; lia.
Qed.

Lemma split_timing (a b : jstring) :
  forallb (fun c => negb (c =? SPACE)%N) a = true ->
  forallb (fun c => negb (c =? SPACE)%N) b = true ->
  split SPACE (a ++ ARROW ++ b) = [a; TIMING_MARK; b].
Proof.
  intros Ha Hb.
  change (a ++ ARROW ++ b) with (a ++ SPACE :: (TIMING_MARK ++ SPACE :: b)).
  rewrite split_app_sep by assumption.
  rewrite split_app_sep by reflexivity.
  now rewrite split_without by assumption.
Qed.

Lemma includes_timing (a b : jstring) :
  includes TIMING_MARK (a ++ ARROW ++ b) = true.
Proof.
  replace (a ++ ARROW ++ b)
    with ((a ++ [SPACE]) ++ TIMING_MARK ++ ([SPACE] ++ b))
    by (now rewrite <- app_assoc).
  apply includes_app.
Qed.

(** The shift of a timing line in the tool's own form is the timing line
    of the shifted counts. *)
Lemma shiftLine_canonical (offsetMs t1 t2 : Z) :
  0 <= t1 <= MAX_EXACT -> 0 <= t2 <= MAX_EXACT ->
  Z.abs (t1 + offsetMs) <= MAX_EXACT -> Z.abs (t2 + offsetMs) <= MAX_EXACT ->
  shiftLine offsetMs (timing_line t1 t2)
  = Returns (timing_line (t1 + offsetMs) (t2 + offsetMs)).
Proof.
  intros H1 H2 H1' H2'. unfold shiftLine, timing_line.
  rewrite includes_timing.
  rewrite split_timing by (apply formatTimestamp_no_space; lia).
  cbn [nth_error].
  rewrite !formatTimestamp_stamp by lia.
  rewrite !parse_fields by assumption. cbn [bind].
  rewrite !dadd_int by assumption.
  rewrite !ms_count_int by assumption. reflexivity.
Qed.

Lemma shift_canonical_returns (offsetMs : Z) (lines : list jstring) :
  Forall (fun line => includes TIMING_MARK line = false
                      \/ canonical_timing offsetMs line) lines ->
  exists shifted, mapM (shiftLine offsetMs) lines = Returns shifted.
Proof.
  induction 1 as [|line lines Hline Hlines [shifted IH]].
  - now exists [].
  - cbn [mapM]. rewrite IH.
    destruct Hline as [Hno|(t1 & t2 & B1 & B2 & B1' & B2' & ->)].
    + unfold shiftLine. rewrite Hno. cbn [bind]. now eexists.
    + rewrite shiftLine_canonical by assumption. cbn [bind]. now eexists.
Qed.





(** C3, as amended.  A line is a timing line exactly when it contains
    ["-->"], without the spaces: such a line is replaced by two formatted
    timestamps around [" --> "]; every other line is pushed unchanged.  When
    the shift returns, its output has as many lines as the input and each
    line without ["-->"] stands unchanged at its position; a text with no
    such line is returned as it is, and the shift returns whenever every
    timing line is in the form the tool prints, within the exact range. *)
Theorem shift_keeps_other_lines (content : jstring) (offsetMs : Z) :
  let lines := split NEWLINE content in
  (forall line, includes TIMING_MARK line = false ->
                shiftLine offsetMs line = Returns line)
  /\ (forall line out,
        includes TIMING_MARK line = true ->
        shiftLine offsetMs line = Returns out ->
        exists s e, out = formatTimestamp s ++ ARROW ++ formatTimestamp e)
  /\ (forall out,
        shiftSubtitles content offsetMs = Returns out ->
        length (split NEWLINE out) = length lines
        /\ forall i line,
             nth_error lines i = Some line ->
             includes TIMING_MARK line = false ->
             nth_error (split NEWLINE out) i = Some line)
  /\ (Forall (fun line => includes TIMING_MARK line = false) lines ->
      shiftSubtitles content offsetMs = Returns content)
  /\ (Forall (fun line => includes TIMING_MARK line = false
                          \/ canonical_timing offsetMs line) lines ->
      exists out, shiftSubtitles content offsetMs = Returns out).
Proof.
  cbv zeta. split; [|split; [|split; [|split]]].
  - intros line H. unfold shiftLine. now rewrite H.
  - intros line out H E. apply shiftLine_cases in E as [[E _]|[_ E]];
      [congruence | exact E].
  - intros out. unfold shiftSubtitles.
    destruct (mapM (shiftLine offsetMs) (split NEWLINE content))
      as [shifted| |] eqn:E; cbn [bind]; try discriminate.
    intros H. injection H as <-. apply mapM_Forall2 in E.
    assert (Hsplit : split NEWLINE (join [NEWLINE] shifted) = shifted).
    { apply split_join.
      - pose proof (split_nonempty NEWLINE content) as Hne.
        destruct E; [congruence | discriminate].
      - pose proof (split_pieces NEWLINE content) as Hp.
        induction E as [|x y l ys Exy E IH]; constructor.
        + inversion Hp; subst. apply no_newline_forallb.
          apply shiftLine_cases in Exy as [[_ ->]|[_ (s & e & ->)]]; [assumption|].
          apply Forall_app. split; [apply formatTimestamp_no_newline|].
          apply Forall_app. split; [|apply formatTimestamp_no_newline].
          unfold ARROW. repeat constructor; discriminate.
        + apply IH. now inversion Hp. }
    rewrite Hsplit. split; [symmetry; eapply Forall2_length; exact E|].
    intros i line Hi Hno. pose proof (Forall2_nth _ _ _ i E) as Hn.
    rewrite Hi in Hn. destruct Hn as (y & Hy & Ey).
    apply shiftLine_cases in Ey as [[_ ->]|[Ey _]]; [assumption | congruence].
  - intros Hall. unfold shiftSubtitles.
    assert (E : mapM (shiftLine offsetMs) (split NEWLINE content)
                = Returns (split NEWLINE content)).
    { induction Hall as [|x l Hx Hl IH]; [reflexivity|].
      cbn [mapM]. unfold shiftLine at 1. rewrite Hx. cbn [bind].
      now rewrite IH. }
    rewrite E. cbn [bind]. now rewrite join_split.
  - intros Hall. unfold shiftSubtitles.
    destruct (shift_canonical_returns offsetMs _ Hall) as [shifted ->].
    cbn [bind]. now eexists.
Qed.

Lemma shift_keeps_other_lines_witness :
  shiftSubtitles SAMPLE_TRACK 2500
  = Returns (lit "1" ++ [NEWLINE] ++ lit "00:00:03,500 --> 00:00:06,500"
               ++ [NEWLINE] ++ lit "Hello world" ++ [NEWLINE])
  /\ nth_error (split NEWLINE SAMPLE_TRACK) 2 = Some (lit "Hello world")
  /\ includes TIMING_MARK (lit "Hello world") = false
  /\ nth_error
       (split NEWLINE
          (lit "1" ++ [NEWLINE] ++ lit "00:00:03,500 --> 00:00:06,500"
             ++ [NEWLINE] ++ lit "Hello world" ++ [NEWLINE])) 2
     = Some (lit "Hello world").
Proof.
  assert (E : shiftSubtitles SAMPLE_TRACK 2500
              = Returns (lit "1" ++ [NEWLINE]
                           ++ lit "00:00:03,500 --> 00:00:06,500"
                           ++ [NEWLINE] ++ lit "Hello world" ++ [NEWLINE]))
    by reflexivity.
  assert (H2 : nth_error (split NEWLINE SAMPLE_TRACK) 2 = Some (lit "Hello world"))
    by reflexivity.
  assert (H3 : includes TIMING_MARK (lit "Hello world") = false) by reflexivity.
  destruct (shift_keeps_other_lines SAMPLE_TRACK 2500) as (_ & _ & K & _ & _).
  destruct (K _ E) as [_ K'].
  split; [exact E|]. split; [exact H2|]. split; [exact H3|].
  exact (K' 2%nat _ H2 H3).
Defined.

(** C3, as stated, fails: the line ["a -->b c"] does not contain [" --> "],
    yet it contains ["-->"], is read as a timing line, and is replaced. *)
Lemma shift_keeps_other_lines_counterexample :
  includes (lit " --> ") (lit "a -->b c") = false
  /\ shiftSubtitles (lit "a -->b c") 0
     = Returns (lit "NaN:NaN:NaN,NaN --> NaN:NaN:NaN,NaN").
Proof. split; reflexivity. Qed.

(** ** The translation merge *)

(** Every parsed segment is the translation of one of the originals: it
    keeps that segment's id and timing. *)
Lemma parse_step_origin (segments acc : list segment) (line : jstring) :
  Forall (fun t => exists seg text, In seg segments /\ t = translated seg text) acc ->
  Forall (fun t => exists seg text, In seg segments /\ t = translated seg text)
    (parse_step segments acc line).
Proof.
  intros Hacc. unfold parse_step.
  destruct (match_line line) as [[m1 m2]|]; [|assumption].
  unfold at_index. destruct (nth_error segments _) as [seg|] eqn:E; [|assumption].
  apply Forall_app. split; [assumption|]. repeat constructor.
  exists seg, (trim m2). split; [now apply nth_error_In in E | reflexivity].
Qed.

Lemma parse_response_origin (segments : list segment) (content : jstring) :
  Forall (fun t => exists seg text, In seg segments /\ t = translated seg text)
    (parse_response segments content).
Proof.
  unfold parse_response.
  generalize (filter (fun line => truthy (trim line))
                (split NEWLINE (trim content))).
  intros lines.
  assert (H : forall acc,
             Forall (fun t => exists seg text,
                       In seg segments /\ t = translated seg text) acc ->
             Forall (fun t => exists seg text,
                       In seg segments /\ t = translated seg text)
               (fold_left (parse_step segments) lines acc)).
  { induction lines as [|l lines IH]; intros acc Hacc; [assumption|].
    cbn [fold_left]. now apply IH, parse_step_origin. }
  apply H. constructor.
Qed.

(** C8.  The code fills by position in the list of parsed segments, not by
    the number a line carries.  For the two segments of the sample
    transcription and the answer ["[1] Adios."], one segment is parsed, the
    translation of the second segment; the merge puts it at position 0 and
    the original second segment at position 1.  So position 0, for which no
    translation came, does not carry the text and timing of its original,
    and the second segment appears twice. *)
Theorem translate_fill_misplaced :
  let segments := _processSegments RAW_SAMPLE in
  let first := mkSegment 1 1 4 (lit "Hello world.") (Some []) None in
  let second := mkSegment 2 5 8 (lit "Goodbye.") (Some []) None in
  let content := lit "[1] Adios." in
  let merged := _translateAllSegments segments content in
  segments = [first; second]
  /\ parse_response segments content = [translated second (lit "Adios.")]
  /\ length (parse_response segments content) <> length segments
  /\ merged = [mkSegment 2 5 8 (lit "Adios.") (Some []) None; second]
  /\ nth_error merged 0 <> nth_error segments 0.
Proof.
  cbv zeta. split; [reflexivity|]. split; [reflexivity|].
  split; [vm_compute; discriminate|]. split; [reflexivity|].
  vm_compute. discriminate.
Qed.


(** * Further properties *)

(** ** More on [trim] *)

Lemma trimStart_split (s : jstring) :
  exists w, s = w ++ trimStart s /\ forallb is_ws w = true.
Proof.
  induction s as [|c s (w & E & W)]; [now exists []|]. simpl.
  destruct (is_ws c) eqn:Hc.
  - exists (c :: w). simpl. now rewrite Hc, W, <- E.
  - now exists [].
Qed.

Lemma trimStart_head (s : jstring) : trimStart (trimStart s) = trimStart s.
Proof.
  induction s as [|c s IH]; [reflexivity|]. simpl.
  destruct (is_ws c) eqn:Hc; [exact IH|]. simpl. now rewrite Hc.
Qed.

Lemma trimStart_fixed (c : char) (s : jstring) :
  is_ws c = false -> trimStart (c :: s) = c :: s.
Proof. intros H. simpl. now rewrite H. Qed.


(** [trim] leaves nothing more to strip. *)
Lemma trim_tidy (s : jstring) : tidy (trim s).
Proof.
  unfold trim, trimEnd. split.
  - set (t := trimStart s).
    destruct (trimStart_split (rev t)) as (w & E & W).
    set (r := trimStart (rev t)) in *.
    destruct t as [|c t'] eqn:Et; [subst r; reflexivity|].
    assert (Hc : is_ws c = false).
    { destruct (is_ws c) eqn:Hc; [|reflexivity].
      pose proof (trimStart_head s) as Hh. fold t in Hh. rewrite Et in Hh.
      simpl in Hh. rewrite Hc in Hh. exfalso.
      pose proof (trimStart_length t') as L. rewrite Hh in L. simpl in L. lia. }
    apply (f_equal (@rev char)) in E. rewrite rev_involutive, rev_app_distr in E.
    destruct (rev r) as [|d r'] eqn:Er.
    + simpl in E. exfalso.
      assert (Hin : In c (rev w)) by (rewrite <- E; now left).
      apply in_rev in Hin. rewrite forallb_forall in W.
      rewrite (W c Hin) in Hc. discriminate.
    + simpl in E. injection E as <- _. now apply trimStart_fixed.
  - rewrite rev_involutive. apply trimStart_head.
Qed.


(** ** The line splitter: widths and single words *)

Section Widths.

Variable maxLength : nat.
Variable words : list jstring.

Lemma step_in_order (st : list jstring * jstring) (w : jstring) :
  In w words ->
  Forall (line_in_order maxLength words) (fst st) ->
  (snd st = [] \/ (length (trim (snd st)) <= maxLength)%nat \/ In (snd st) words) ->
  Forall (line_in_order maxLength words) (fst (wrap_step maxLength st w))
  /\ (snd (wrap_step maxLength st w) = []
      \/ (length (trim (snd (wrap_step maxLength st w))) <= maxLength)%nat
      \/ In (snd (wrap_step maxLength st w)) words).
Proof.
  destruct st as [lines cur]. cbn [fst snd]. intros Hw Hl Hc.
  unfold wrap_step.
  destruct (Nat.ltb_spec maxLength (length (trim (cur ++ [SPACE] ++ w))))
    as [Hover|Hfit].
  - destruct cur as [|c cur]; cbn [truthy fst snd].
    + split; [|now left]. apply Forall_app. split; [assumption|].
      constructor; [|constructor]. right. exists w. split; [assumption | now left].
    + split; [|tauto]. apply Forall_app. split; [assumption|].
      constructor; [|constructor].
      destruct Hc as [Hc|[Hc|Hc]]; [discriminate| |].
      * now left.
      * right. exists (c :: cur). split; [assumption | now right].
  - cbn [fst snd]. split; [assumption|].
    destruct cur as [|c cur]; cbn [truthy].
    + right. left. exact Hfit.
    + right. left. exact Hfit.
Qed.

Lemma fold_in_order (ws : list jstring) (st : list jstring * jstring) :
  (forall w, In w ws -> In w words) ->
  Forall (line_in_order maxLength words) (fst st) ->
  (snd st = [] \/ (length (trim (snd st)) <= maxLength)%nat \/ In (snd st) words) ->
  Forall (line_in_order maxLength words)
    (finish (fold_left (wrap_step maxLength) ws st)).
Proof.
  revert st. induction ws as [|w ws IH]; intros st Hsub Hl Hc.
  - destruct st as [lines cur]. cbn [fold_left finish fst snd] in *.
    destruct cur as [|c cur]; cbn [truthy]; [assumption|].
    apply Forall_app. split; [assumption|]. constructor; [|constructor].
    destruct Hc as [Hc|[Hc|Hc]]; [discriminate | now left |].
    right. exists (c :: cur). split; [assumption | now right].
  - cbn [fold_left].
    destruct (step_in_order st w (Hsub w (or_introl eq_refl)) Hl Hc) as [Hl' Hc'].
    apply IH; [|assumption|assumption].
    intros v Hv. apply Hsub. now right.
Qed.

End Widths.

(** X1.  Unless the two-line fallback is taken, every line the splitter
    returns fits the width, or is a single word of the text (as it stands
    or trimmed) that is itself too long: widths are only ever exceeded by
    a word that cannot be broken. *)
Theorem split_lines_fit_width (text : jstring) (maxLength : nat) :
  (length (greedy_lines (split SPACE text) maxLength) <= 2)%nat ->
  Forall (line_in_order maxLength (split SPACE text))
    (_splitTextIntoLines text maxLength).
Proof.
  intros Hfew. unfold _splitTextIntoLines.
  destruct (Nat.leb_spec (length text) maxLength) as [Hle|Hgt].
  - constructor; [now left | constructor].
  - apply Nat.ltb_ge in Hfew. rewrite Hfew. rewrite greedy_lines_fold.
    apply fold_in_order; [tauto | constructor | now left].
Qed.

Lemma split_lines_fit_width_witness :
  let text := lit "the quick brown fox" in
  (length (greedy_lines (split SPACE text) 10) <= 2)%nat
  /\ _splitTextIntoLines text 10 = [lit "the quick"; lit "brown fox"]
  /\ Forall (line_in_order 10 (split SPACE text)) (_splitTextIntoLines text 10).
Proof.
  intros text.
  assert (H : (length (greedy_lines (split SPACE text) 10) <= 2)%nat)
    by (vm_compute; lia).
  split; [exact H|]. split; [reflexivity|].
  exact (split_lines_fit_width text 10 H).
Defined.

(** X2.  A text without a space is never broken: the splitter returns one
    line, which is the text itself when [trim] has nothing to strip from
    it, however long it is, and otherwise the text or its trimmed form. *)
Theorem split_lines_single_word (text : jstring) (maxLength : nat) :
  forallb (fun c => negb (c =? SPACE)%N) text = true ->
  exists l, _splitTextIntoLines text maxLength = [l]
            /\ (l = text \/ l = trim text)
            /\ (tidy text -> l = text).
Proof.
  intros Hno. unfold _splitTextIntoLines.
  destruct (Nat.leb_spec (length text) maxLength) as [Hle|Hgt].
  - exists text. tauto.
  - rewrite (split_without SPACE text Hno).
    unfold greedy_lines. cbn [fold_left]. unfold wrap_step.
    rewrite trim_leading_space. cbn [truthy].
    destruct (Nat.ltb_spec maxLength (length (trim text))) as [Hover|Hfit].
    + exists text. cbn -[trim]. tauto.
    + destruct text as [|c text']; [simpl in Hgt; lia|].
      exists (trim (c :: text')). cbn -[trim].
      split; [reflexivity|]. split; [now right|]. intros Ht. now apply tidy_trim.
Qed.

Lemma split_lines_single_word_witness :
  let text := lit "Supercalifragilisticexpialidocious" in
  forallb (fun c => negb (c =? SPACE)%N) text = true
  /\ tidy text
  /\ _splitTextIntoLines text 10 = [text].
Proof.
  intros text.
  assert (H : forallb (fun c => negb (c =? SPACE)%N) text = true) by reflexivity.
  assert (T : tidy text) by (split; reflexivity).
  destruct (split_lines_single_word text 10 H) as (l & E & _ & F).
  split; [exact H|]. split; [exact T|]. rewrite E. f_equal. exact (F T).
Defined.

(** ** Timestamps: widths and the two formatters *)

Lemma ToString_small_check :
  forallb (fun n => Nat.eqb (length (ToString (Z.of_nat n)))
                      (if (n <? 10)%nat then 1
                       else if (n <? 100)%nat then 2 else 3))
    (seq 0 1000) = true.
Proof. vm_compute. reflexivity. Qed.

Lemma ToString_small (z : Z) :
  0 <= z < 1000 ->
  length (ToString z)
  = if z <? 10 then 1%nat else if z <? 100 then 2%nat else 3%nat.
Proof.
  intros Hz. pose proof ToString_small_check as H.
  rewrite forallb_forall in H. specialize (H (Z.to_nat z)).
  rewrite Z2Nat.id in H by lia.
  rewrite (proj1 (Nat.eqb_eq _ _) (H ltac:(apply in_seq; lia))).
  destruct (Z.ltb_spec z 10), (Nat.ltb_spec (Z.to_nat z) 10); try lia;
    destruct (Z.ltb_spec z 100), (Nat.ltb_spec (Z.to_nat z) 100); lia.
Qed.

Lemma pad_length (z : Z) (size : nat) :
  length (_pad z size) = Nat.max size (length (ToString z)).
Proof.
  rewrite pad_padStart. unfold padStart0.
  rewrite length_app, repeat_length. lia.
Qed.

Lemma pad_length_small (z : Z) (size : nat) :
  0 <= z < 10 ^ Z.of_nat size -> (2 <= size <= 3)%nat ->
  length (_pad z size) = size.
Proof.
  intros Hz Hs. rewrite pad_length.
  assert (Hsize : size = 2%nat \/ size = 3%nat) by lia.
  destruct Hsize as [-> | ->]; rewrite ToString_small by (simpl in Hz; lia);
    simpl in Hz; destruct (Z.ltb_spec z 10); try reflexivity;
    destruct (Z.ltb_spec z 100); try reflexivity; lia.
Qed.

Lemma dec_bound (s : jstring) :
  forallb is_digit s = true -> dec s < 10 ^ Z.of_nat (length s).
Proof.
  induction s as [|c s IH] using rev_ind; [reflexivity|].
  rewrite forallb_app. intros [Hs Hc]%andb_prop. specialize (IH Hs).
  rewrite dec_snoc, length_app. cbn [length forallb] in *.
  rewrite andb_true_r in Hc.
  replace (Z.of_nat (length s + 1)) with (Z.succ (Z.of_nat (length s))) by lia.
  rewrite Z.pow_succ_r by lia.
  assert (digit_val c <= 9).
  { apply is_digit_cases in Hc. unfold digit_val.
    repeat (destruct Hc as [Hc|Hc]); subst c; simpl; lia. }
  lia.
Qed.

Lemma ToString_long (z : Z) : 100 <= z -> (3 <= length (ToString z))%nat.
Proof.
  intros Hz. destruct (ToString_nonneg z ltac:(lia)) as [[_ Hall] Hv].
  pose proof (dec_bound _ Hall) as Hb. rewrite Hv in Hb.
  destruct (length (ToString z)) as [|[|[|n]]]; simpl in Hb; lia.
Qed.

Lemma length_two {A : Type} (l : list A) :
  length l = 2%nat -> exists a b, l = [a; b].
Proof. destruct l as [|a [|b [|c l]]]; try discriminate. now exists a, b. Qed.

Lemma length_three {A : Type} (l : list A) :
  length l = 3%nat -> exists a b c, l = [a; b; c].
Proof.
  destruct l as [|a [|b [|c [|d l]]]]; try discriminate. now exists a, b, c.
Qed.

(** X3.  For a time that is not negative both formatters print at least
    twelve code units and as many as each other; below one hundred hours
    the text is exactly two digits, a colon, two digits, a colon, two
    digits, the separator and three digits.  Hours are not clamped: from
    one hundred hours on the text is longer. *)
Theorem timestamp_width (x : Q) :
  (0 <= x)%Q ->
  let t := Math_floor (times x 1000) in
  (12 <= length (_formatSRTTimestamp x))%nat
  /\ length (_formatVTTTimestamp x) = length (_formatSRTTimestamp x)
  /\ (t < 360000000 ->
      exists h1 h2 m1 m2 s1 s2 f1 f2 f3 : char,
        _formatSRTTimestamp x
        = [h1; h2; COLON; m1; m2; COLON; s1; s2; COMMA; f1; f2; f3]
        /\ forallb is_digit [h1; h2; m1; m2; s1; s2; f1; f2; f3] = true)
  /\ (360000000 <= t -> (12 < length (_formatSRTTimestamp x))%nat).
Proof.
  intros Hx t. pose proof (floor_nonneg x Hx) as Ht. fold t in Ht.
  destruct (fields_nonneg t Ht) as (Hh & Hm & Hs & Hms & Hsum).
  rewrite formatSRT_fields, formatVTT_fields. fold t. cbv zeta.
  pose proof (pad_length_small (mins_of t) 2 ltac:(simpl; lia) ltac:(lia)) as Lm.
  pose proof (pad_length_small (secs_of t) 2 ltac:(simpl; lia) ltac:(lia)) as Ls.
  pose proof (pad_length_small (millis_of t) 3 ltac:(simpl; lia) ltac:(lia)) as Lms.
  pose proof (pad_length (hours_of t) 2) as Lh.
  split; [|split; [|split]].
  - rewrite !length_app, Lm, Ls, Lms, Lh. cbn [length]. lia.
  - now rewrite !length_app.
  - intros Hlt.
    assert (Hh100 : hours_of t < 100) by lia.
    pose proof (pad_length_small (hours_of t) 2 ltac:(simpl; lia) ltac:(lia)) as Lh2.
    destruct (pad_nonneg (hours_of t) 2 Hh) as [[_ Dh] _].
    destruct (pad_nonneg (mins_of t) 2 (proj1 Hm)) as [[_ Dm] _].
    destruct (pad_nonneg (secs_of t) 2 (proj1 Hs)) as [[_ Ds] _].
    destruct (pad_nonneg (millis_of t) 3 (proj1 Hms)) as [[_ Dms] _].
    destruct (length_two _ Lh2) as (h1 & h2 & Eh).
    destruct (length_two _ Lm) as (m1 & m2 & Em).
    destruct (length_two _ Ls) as (s1 & s2 & Es).
    destruct (length_three _ Lms) as (f1 & f2 & f3 & Ems).
    rewrite Eh in *. rewrite Em in *. rewrite Es in *. rewrite Ems in *.
    exists h1, h2, m1, m2, s1, s2, f1, f2, f3. split; [reflexivity|].
    cbn [forallb] in *.
    repeat match goal with
           | H : is_digit _ && _ = true |- _ => apply andb_prop in H as [? ?]
           end.
    repeat match goal with
           | H : is_digit _ = true |- _ => rewrite H; clear H
           end.
    reflexivity.
  - intros Hge.
    assert (Hh100 : 100 <= hours_of t) by lia.
    pose proof (ToString_long _ Hh100).
    rewrite !length_app, Lm, Ls, Lms, Lh. cbn [length]. lia.
Qed.

Lemma timestamp_width_witness :
  (0 <= 3725005 # 1000)%Q
  /\ Math_floor (times (3725005 # 1000) 1000) < 360000000
  /\ length (_formatSRTTimestamp (3725005 # 1000)) = 12%nat
  /\ (12 <= length (_formatSRTTimestamp (3725005 # 1000)))%nat.
Proof.
  assert (H : (0 <= 3725005 # 1000)%Q) by discriminate.
  split; [exact H|]. split; [reflexivity|]. split; [reflexivity|].
  exact (proj1 (timestamp_width (3725005 # 1000) H)).
Defined.

(** X4.  For a time that is not negative, the formatter of the shifting
    tool, given the count of milliseconds the writer computes (the floor of
    the double product [seconds * 1000]), prints the text the SRT formatter
    of the writer prints: a shifted file stays in the writer's format. *)
Theorem shifter_prints_like_writer (x : Q) :
  (0 <= x)%Q ->
  Math_floor (times x 1000) <= MAX_EXACT ->
  formatTimestamp (Int (Math_floor (times x 1000))) = _formatSRTTimestamp x.
Proof.
  intros Hx _. pose proof (floor_nonneg x Hx) as Ht.
  rewrite formatTimestamp_stamp by assumption.
  rewrite formatSRT_fields. reflexivity.
Qed.

Lemma shifter_prints_like_writer_witness :
  (0 <= 1005 # 1000)%Q
  /\ Math_floor (times (1005 # 1000) 1000) <= MAX_EXACT
  /\ Math_floor (times (1005 # 1000) 1000) = 1004
  /\ formatTimestamp (Int (Math_floor (times (1005 # 1000) 1000)))
     = _formatSRTTimestamp (1005 # 1000).
Proof.
  assert (H1 : (0 <= 1005 # 1000)%Q) by discriminate.
  assert (H2 : Math_floor (times (1005 # 1000) 1000) <= MAX_EXACT)
    by (vm_compute; discriminate).
  split; [exact H1|]. split; [exact H2|]. split; [vm_compute; reflexivity|].
  exact (shifter_prints_like_writer (1005 # 1000) H1 H2).
Defined.

(** ** The parser: fields of any width, and what it ignores *)

Lemma parse_same_parts (ts1 ts2 time ms : jstring) (r1 r2 : list jstring) :
  split COMMA ts1 = time :: ms :: r1 ->
  split COMMA ts2 = time :: ms :: r2 ->
  parseTimestamp (Some ts1) = parseTimestamp (Some ts2).
Proof. intros E1 E2. unfold parseTimestamp. now rewrite E1, E2. Qed.

(** X5.  The parser does not look at field widths: for decimal fields of
    any length it returns [((H * 3600) + (M * 60) + S) * 1000 + mmm], and
    it ignores whatever follows a second comma. *)
Theorem parse_decimal_fields (h m s ms extra : jstring) :
  digit_string h -> digit_string m -> digit_string s -> digit_string ms ->
  let t := (dec h * 3600 + dec m * 60 + dec s) * 1000 + dec ms in
  t <= MAX_EXACT ->
  parseTimestamp (Some (stamp h m s ms)) = Returns (Int t)
  /\ parseTimestamp (Some (stamp h m s ms ++ [COMMA] ++ extra)) = Returns (Int t).
Proof.
  intros Hh Hm Hs Hms t Ht.
  pose proof (parse_stamp h m s ms Hh Hm Hs Hms Ht) as E. fold t in E.
  split; [exact E|]. rewrite <- E.
  destruct (split_stamp h m s ms Hh Hm Hs Hms) as [E1 _].
  eapply parse_same_parts; [|exact E1].
  unfold stamp.
  replace ((h ++ [COLON] ++ m ++ [COLON] ++ s ++ [COMMA] ++ ms) ++ [COMMA] ++ extra)
    with ((h ++ [COLON] ++ m ++ [COLON] ++ s) ++ COMMA :: (ms ++ COMMA :: extra))
    by (now rewrite <- !app_assoc).
  rewrite split_app_sep.
  - rewrite split_app_sep by now apply digit_string_no_unit. reflexivity.
  - rewrite !forallb_app.
    repeat (apply andb_true_intro; split); try reflexivity;
      now apply digit_string_no_unit.
Qed.

Lemma parse_decimal_fields_witness :
  let h := lit "1" in let m := lit "2" in let s := lit "3" in
  let ms := lit "4" in
  digit_string h /\ digit_string m /\ digit_string s /\ digit_string ms
  /\ (dec h * 3600 + dec m * 60 + dec s) * 1000 + dec ms <= MAX_EXACT
  /\ parseTimestamp (Some (lit "1:2:3,4")) = Returns (Int 3723004)
  /\ parseTimestamp (Some (lit "1:2:3,4,567")) = Returns (Int 3723004).
Proof.
  intros h m s ms.
  assert (Hh : digit_string h) by (split; [discriminate | reflexivity]).
  assert (Hm : digit_string m) by (split; [discriminate | reflexivity]).
  assert (Hs : digit_string s) by (split; [discriminate | reflexivity]).
  assert (Hms : digit_string ms) by (split; [discriminate | reflexivity]).
  assert (Hb : (dec h * 3600 + dec m * 60 + dec s) * 1000 + dec ms <= MAX_EXACT)
    by (vm_compute; discriminate).
  destruct (parse_decimal_fields h m s ms (lit "567") Hh Hm Hs Hms Hb) as [E1 E2].
  split; [exact Hh|]. split; [exact Hm|]. split; [exact Hs|].
  split; [exact Hms|]. split; [exact Hb|]. split; [exact E1 | exact E2].
Defined.

(** ** Shifts of tracks in the tool's own form *)

Lemma timing_line_no_newline (t1 t2 : Z) : no_newline (timing_line t1 t2).
Proof.
  unfold timing_line.
  apply Forall_app. split; [apply formatTimestamp_no_newline|].
  apply Forall_app. split; [|apply formatTimestamp_no_newline].
  unfold ARROW. repeat constructor; discriminate.
Qed.

Lemma mapM_length {A B : Type} (f : A -> outcome B) (l : list A) (ys : list B) :
  mapM f l = Returns ys -> length ys = length l.
Proof.
  intros E. apply mapM_Forall2 in E. symmetry. eapply Forall2_length. exact E.
Qed.

Section TwoShifts.

Variables a b : Z.

(** The counts both shifts keep within reach, the first without a clamp. *)
Let reach (t : Z) : Prop :=
  0 <= t <= MAX_EXACT /\ 0 <= t + a <= MAX_EXACT
  /\ Z.abs (t + a + b) <= MAX_EXACT.

Lemma shiftLine_twice (line : jstring) :
  no_newline line ->
  includes TIMING_MARK line = false
  \/ (exists t1 t2, reach t1 /\ reach t2 /\ line = timing_line t1 t2) ->
  exists out out2,
    shiftLine a line = Returns out
    /\ shiftLine b out = Returns out2
    /\ shiftLine (a + b) line = Returns out2
    /\ no_newline out.
Proof.
  intros Hnl [Hno|(t1 & t2 & R1 & R2 & ->)].
  - exists line, line. unfold shiftLine. rewrite Hno. tauto.
  - destruct R1 as (B1 & B1' & B1''). destruct R2 as (B2 & B2' & B2'').
    exists (timing_line (t1 + a) (t2 + a)),
      (timing_line (t1 + a + b) (t2 + a + b)).
    split; [apply shiftLine_canonical; (assumption || lia)|].
    split; [apply shiftLine_canonical; (assumption || lia)|].
    split; [|apply timing_line_no_newline].
    rewrite shiftLine_canonical by (rewrite ?Z.add_assoc; (assumption || lia)).
    now rewrite !Z.add_assoc.
Qed.

Lemma shift_lines_twice (lines : list jstring) :
  Forall no_newline lines ->
  Forall (fun line =>
            includes TIMING_MARK line = false
            \/ exists t1 t2, reach t1 /\ reach t2 /\ line = timing_line t1 t2)
    lines ->
  exists outs outs2,
    mapM (shiftLine a) lines = Returns outs
    /\ mapM (shiftLine b) outs = Returns outs2
    /\ mapM (shiftLine (a + b)) lines = Returns outs2
    /\ Forall no_newline outs.
Proof.
  induction lines as [|line lines IH]; intros Hnl Hall.
  - exists [], []. repeat split; constructor.
  - inversion Hnl as [|? ? Hn Hns]; subst. inversion Hall as [|? ? Hl Hls]; subst.
    destruct (IH Hns Hls) as (outs & outs2 & E1 & E2 & E3 & N).
    destruct (shiftLine_twice line Hn Hl) as (out & out2 & F1 & F2 & F3 & M).
    exists (out :: outs), (out2 :: outs2). cbn [mapM].
    rewrite E1, E2, E3, F1, F2, F3. cbn [bind].
    repeat split. now constructor.
Qed.

Lemma shift_track_twice (content : jstring) :
  timing_track reach content ->
  exists out out2,
    shiftSubtitles content a = Returns out
    /\ shiftSubtitles out b = Returns out2
    /\ shiftSubtitles content (a + b) = Returns out2.
Proof.
  intros Htrack. unfold timing_track in Htrack.
  assert (Hnl : Forall no_newline (split NEWLINE content)).
  { eapply Forall_impl; [|apply split_pieces]. intros l H. exact H. }
  destruct (shift_lines_twice _ Hnl Htrack) as (outs & outs2 & E1 & E2 & E3 & N).
  exists (join [NEWLINE] outs), (join [NEWLINE] outs2).
  unfold shiftSubtitles. rewrite E1, E3. cbn [bind].
  split; [reflexivity|]. split; [|reflexivity].
  rewrite split_join.
  - rewrite E2. reflexivity.
  - apply mapM_length in E1. pose proof (split_nonempty NEWLINE content).
    destruct outs; [|discriminate].
    destruct (split NEWLINE content); [congruence | discriminate].
  - eapply Forall_impl; [|exact N]. apply no_newline_forallb.
Qed.

End TwoShifts.

Lemma shift_track_zero (content : jstring) :
  timing_track (fun t => 0 <= t <= MAX_EXACT) content ->
  shiftSubtitles content 0 = Returns content.
Proof.
  intros Htrack. unfold shiftSubtitles.
  assert (E : mapM (shiftLine 0) (split NEWLINE content)
              = Returns (split NEWLINE content)).
  { unfold timing_track in Htrack.
    induction Htrack as [|line lines Hl Hls IH]; [reflexivity|].
    cbn [mapM]. rewrite IH.
    destruct Hl as [Hno|(t1 & t2 & B1 & B2 & ->)].
    - unfold shiftLine. rewrite Hno. reflexivity.
    - rewrite shiftLine_canonical by (rewrite ?Z.add_0_r; (assumption || lia)).
      now rewrite !Z.add_0_r. }
  rewrite E. cbn [bind]. now rewrite join_split.
Qed.

(** X6.  A shift by zero returns a track unchanged, byte for byte, when
    its timing lines are in the form the tool prints. *)
Theorem shift_by_zero (content : jstring) :
  timing_track (fun t => 0 <= t <= MAX_EXACT) content ->
  shiftSubtitles content 0 = Returns content.
Proof. exact (shift_track_zero content). Qed.

Lemma sample_track_timing (P : Z -> Prop) :
  P 1000 -> P 4000 -> timing_track P SAMPLE_TRACK.
Proof.
  intros H1 H2. unfold timing_track.
  change (split NEWLINE SAMPLE_TRACK)
    with [lit "1"; timing_line 1000 4000; lit "Hello world"; []].
  constructor; [left; reflexivity|].
  constructor; [right; exists 1000, 4000; repeat split; assumption|].
  constructor; [left; reflexivity|].
  constructor; [left; reflexivity | constructor].
Qed.

Lemma shift_by_zero_witness :
  timing_track (fun t => 0 <= t <= MAX_EXACT) SAMPLE_TRACK
  /\ shiftSubtitles SAMPLE_TRACK 0 = Returns SAMPLE_TRACK.
Proof.
  assert (H : timing_track (fun t => 0 <= t <= MAX_EXACT) SAMPLE_TRACK)
    by (apply sample_track_timing; unfold MAX_EXACT; lia).
  split; [exact H | exact (shift_by_zero SAMPLE_TRACK H)].
Defined.

(** X7.  Two shifts in a row are the shift by the sum of the offsets, as
    long as the first one clamps no timestamp at zero. *)
Theorem shift_twice (content : jstring) (a b : Z) :
  timing_track (fun t => 0 <= t <= MAX_EXACT /\ 0 <= t + a <= MAX_EXACT
                         /\ Z.abs (t + a + b) <= MAX_EXACT) content ->
  exists out out2,
    shiftSubtitles content a = Returns out
    /\ shiftSubtitles out b = Returns out2
    /\ shiftSubtitles content (a + b) = Returns out2.
Proof. exact (shift_track_twice a b content). Qed.

Lemma shift_twice_witness :
  timing_track (fun t => 0 <= t <= MAX_EXACT /\ 0 <= t + 2500 <= MAX_EXACT
                         /\ Z.abs (t + 2500 + (-3000)) <= MAX_EXACT)
    SAMPLE_TRACK
  /\ exists out out2,
       shiftSubtitles SAMPLE_TRACK 2500 = Returns out
       /\ shiftSubtitles out (-3000) = Returns out2
       /\ shiftSubtitles SAMPLE_TRACK (2500 + -3000) = Returns out2.
Proof.
  assert (H : timing_track
                (fun t => 0 <= t <= MAX_EXACT /\ 0 <= t + 2500 <= MAX_EXACT
                          /\ Z.abs (t + 2500 + (-3000)) <= MAX_EXACT)
                SAMPLE_TRACK)
    by (apply sample_track_timing; unfold MAX_EXACT; lia).
  split; [exact H | exact (shift_twice SAMPLE_TRACK 2500 (-3000) H)].
Defined.

(** X8.  A shift is undone by the shift with the opposite offset, as long
    as it clamps no timestamp at zero. *)
Theorem shift_and_back (content : jstring) (offsetMs : Z) :
  timing_track (fun t => 0 <= t <= MAX_EXACT
                         /\ 0 <= t + offsetMs <= MAX_EXACT) content ->
  exists out,
    shiftSubtitles content offsetMs = Returns out
    /\ shiftSubtitles out (- offsetMs) = Returns content.
Proof.
  intros Htrack.
  destruct (shift_track_twice offsetMs (- offsetMs) content) as (out & out2 & E1 & E2 & E3).
  { eapply Forall_impl; [|exact Htrack]. cbv beta.
    intros line [Hno|(t1 & t2 & B1 & B2 & E)]; [now left|].
    right. exists t1, t2. repeat split; try tauto; lia. }
  exists out. split; [exact E1|]. rewrite E2.
  rewrite Z.add_opp_diag_r in E3. rewrite <- E3.
  apply shift_track_zero.
  eapply Forall_impl; [|exact Htrack]. cbv beta.
  intros line [Hno|(t1 & t2 & B1 & B2 & E)]; [now left|].
  right. exists t1, t2. tauto.
Qed.

Lemma shift_and_back_witness :
  timing_track (fun t => 0 <= t <= MAX_EXACT /\ 0 <= t + (-1000) <= MAX_EXACT)
    SAMPLE_TRACK
  /\ exists out,
       shiftSubtitles SAMPLE_TRACK (-1000) = Returns out
       /\ shiftSubtitles out (- (-1000)) = Returns SAMPLE_TRACK.
Proof.
  assert (H : timing_track
                (fun t => 0 <= t <= MAX_EXACT /\ 0 <= t + (-1000) <= MAX_EXACT)
                SAMPLE_TRACK)
    by (apply sample_track_timing; unfold MAX_EXACT; lia).
  split; [exact H | exact (shift_and_back SAMPLE_TRACK (-1000) H)].
Defined.

(** ** Shifting a track the writer generated *)

Lemma startsWith_mark (s : jstring) :
  startsWith TIMING_MARK s = true -> In GREATER s.
Proof.
  unfold TIMING_MARK. destruct s as [|c1 [|c2 [|c3 s]]]; cbn [startsWith];
    rewrite ?andb_false_r; try discriminate.
  intros H. apply andb_prop in H as [_ H]. apply andb_prop in H as [_ H].
  apply andb_prop in H as [H _]. apply N.eqb_eq in H. subst c3.
  right. right. now left.
Qed.

Lemma includes_mark (s : jstring) :
  includes TIMING_MARK s = true -> In GREATER s.
Proof.
  induction s as [|c s IH]; cbn [includes].
  - rewrite orb_false_r. apply startsWith_mark.
  - intros [H|H]%orb_prop; [now apply startsWith_mark | right; now apply IH].
Qed.

Lemma no_mark (s : jstring) :
  ~ In GREATER s -> includes TIMING_MARK s = false.
Proof.
  intros H. destruct (includes TIMING_MARK s) eqn:E; [|reflexivity].
  now apply includes_mark in E.
Qed.

Lemma shift_plain_lines (offsetMs : Z) (lines : list jstring) :
  Forall (fun l => ~ In GREATER l) lines ->
  mapM (shiftLine offsetMs) lines = Returns lines.
Proof.
  induction 1 as [|l lines Hl Hls IH]; [reflexivity|].
  cbn [mapM]. unfold shiftLine at 1. rewrite (no_mark l Hl). cbn [bind].
  now rewrite IH.
Qed.

Lemma mapM_app {A B : Type} (f : A -> outcome B) (l1 l2 : list A)
    (y1 y2 : list B) :
  mapM f l1 = Returns y1 -> mapM f l2 = Returns y2 ->
  mapM f (l1 ++ l2) = Returns (y1 ++ y2).
Proof.
  revert y1. induction l1 as [|x l1 IH]; intros y1; cbn [mapM app].
  - intros E. injection E as <-. tauto.
  - destruct (f x) as [y| |]; cbn [bind]; try discriminate.
    destruct (mapM f l1) as [ys| |]; cbn [bind]; try discriminate.
    intros E E2. injection E as <-. now rewrite (IH ys eq_refl E2).
Qed.

Lemma shifter_line_form (x : Q) :
  (0 <= x)%Q ->
  formatTimestamp (Int (Math_floor (times x 1000))) = _formatSRTTimestamp x.
Proof.
  intros Hx. pose proof (floor_nonneg x Hx) as Ht.
  rewrite formatTimestamp_stamp by assumption.
  rewrite formatSRT_fields. reflexivity.
Qed.

Section ShiftGenerated.

Variable offsetMs : Z.

(** What the shift asks of a segment: times within reach, and a text with
    neither a line feed nor a greater-than sign. *)
Let fit (seg : segment) : Prop :=
  shiftable offsetMs (seg_start seg) /\ shiftable offsetMs (seg_end seg)
  /\ ~ In NEWLINE (seg_text seg) /\ ~ In GREATER (seg_text seg).

Lemma shift_block (seg : segment) (index : Z) :
  fit seg ->
  mapM (shiftLine offsetMs) (block_lines _formatSRTTimestamp seg index)
  = Returns (block_lines (shifted_stamp offsetMs) seg index).
Proof.
  intros ((S0 & S1 & S2) & (E0 & E1 & E2) & _ & Hgt).
  pose proof (floor_nonneg _ S0) as Hs. pose proof (floor_nonneg _ E0) as He.
  unfold block_lines.
  change ([ToString index;
           _formatSRTTimestamp (seg_start seg) ++ lit " --> "
             ++ _formatSRTTimestamp (seg_end seg)]
            ++ _splitTextIntoLines (seg_text seg) 42 ++ [[]])
    with ([ToString index]
            ++ [_formatSRTTimestamp (seg_start seg) ++ ARROW
                  ++ _formatSRTTimestamp (seg_end seg)]
            ++ (_splitTextIntoLines (seg_text seg) 42 ++ [[]])).
  apply (mapM_app _ [_] _ [_]); [|apply (mapM_app _ [_] _ [_])].
  - apply shift_plain_lines. repeat constructor.
    intros Hin. apply ToString_chars in Hin as [H|H]; discriminate.
  - cbn [mapM].
    rewrite <- (shifter_line_form (seg_start seg)), <- (shifter_line_form (seg_end seg))
      by assumption.
    fold (timing_line (Math_floor (times (seg_start seg) 1000))
            (Math_floor (times (seg_end seg) 1000))).
    rewrite shiftLine_canonical by
      (try split; (assumption || lia)).
    reflexivity.
  - apply shift_plain_lines. apply Forall_app. split; [|repeat constructor; tauto].
    eapply Forall_impl; [|apply (split_lines_units (fun c => c <> GREATER))].
    + intros l Hl Hin. rewrite Forall_forall in Hl. now apply (Hl _ Hin).
    + discriminate.
    + apply Forall_forall. intros c Hc ->. contradiction.
Qed.

Lemma shift_blocks (segments : list segment) (i : nat) :
  Forall fit segments ->
  mapM (shiftLine offsetMs)
    (concat (mapi_from i (fun seg k =>
                            block_lines _formatSRTTimestamp seg (Z.of_nat k + 1))
               segments))
  = Returns
      (concat (mapi_from i (fun seg k =>
                              block_lines (shifted_stamp offsetMs) seg
                                (Z.of_nat k + 1))
                 segments)).
Proof.
  intros Hall. revert i. induction Hall as [|seg segments Hseg Hsegs IH]; intros i.
  - reflexivity.
  - cbn [mapi_from concat]. apply mapM_app; [now apply shift_block | apply IH].
Qed.

End ShiftGenerated.


(** A track of blocks as one list of lines. *)
Lemma blocks_lines (fmt : Q -> jstring) (segments : list segment) :
  join [NEWLINE]
    (mapi (fun seg k =>
             join [NEWLINE] (block_lines fmt seg (Z.of_nat k + 1)))
       segments)
  = join [NEWLINE]
      (concat (mapi (fun seg k => block_lines fmt seg (Z.of_nat k + 1))
                 segments)).
Proof.
  unfold mapi.
  rewrite (mapi_from_map
             (fun seg k => block_lines fmt seg (Z.of_nat k + 1))
             (join [NEWLINE])).
  apply join_concat. apply mapi_from_Forall. intros seg k _. discriminate.
Qed.

(** X9.  Shifting a track the writer generated gives the same blocks with
    shifted timing lines: each timestamp is the count of milliseconds the
    writer printed, moved by the offset and clamped at zero; the index
    lines and the text lines are untouched.  The times must be
    non-negative with counts of milliseconds within the exact range, and
    no text may hold a line feed or a greater-than sign. *)
Theorem shift_generated_track (segments : list segment) (offsetMs : Z) :
  Forall (fun seg =>
            shiftable offsetMs (seg_start seg)
            /\ shiftable offsetMs (seg_end seg)
            /\ ~ In NEWLINE (seg_text seg)
            /\ ~ In GREATER (seg_text seg)) segments ->
  shiftSubtitles (_generateSRT segments) offsetMs
  = Returns (shifted_track offsetMs segments).
Proof.
  intros Hall. destruct segments as [|seg0 rest]; [reflexivity|].
  set (segments := seg0 :: rest) in *.
  unfold shiftSubtitles.
  assert (Hlines : split NEWLINE (_generateSRT segments)
                   = concat (mapi (fun seg k =>
                                     block_lines _formatSRTTimestamp seg
                                       (Z.of_nat k + 1)) segments)).
  { apply (track_lines _formatSRTTimestamp formatSRT_no_newline segments);
      [discriminate|].
    eapply Forall_impl; [|exact Hall]. intros seg (_ & _ & Hnl & _).
    apply Forall_forall. intros c Hc ->. contradiction. }
  rewrite Hlines. unfold mapi. rewrite (shift_blocks offsetMs segments 0 Hall).
  cbn [bind]. f_equal. unfold shifted_track. now rewrite blocks_lines.
Qed.

Lemma shift_generated_track_witness :
  let segments := [SEG_A; SEG_LATE] in
  Forall (fun seg =>
            shiftable (-2500) (seg_start seg)
            /\ shiftable (-2500) (seg_end seg)
            /\ ~ In NEWLINE (seg_text seg)
            /\ ~ In GREATER (seg_text seg)) segments
  /\ shiftSubtitles (_generateSRT segments) (-2500)
     = Returns (shifted_track (-2500) segments)
  /\ shifted_track (-2500) segments
     = lit "1" ++ [NEWLINE] ++ lit "00:00:00,000 --> 00:00:01,500"
         ++ [NEWLINE] ++ lit "Hello world" ++ [NEWLINE] ++ [NEWLINE]
         ++ lit "2" ++ [NEWLINE] ++ lit "00:00:01,850 --> 00:00:05,500"
         ++ [NEWLINE] ++ lit "Goodbye" ++ [NEWLINE].
Proof.
  intros segments.
  assert (S : forall q, (0 <= q)%Q -> Math_floor (times q 1000) <= 8000 ->
                        0 <= Math_floor (times q 1000) ->
                        shiftable (-2500) q).
  { intros q H0 H1 H2. unfold shiftable, MAX_EXACT. repeat split; try assumption; lia. }
  assert (T : forall s : String.string,
             forallb (fun c => negb ((c =? NEWLINE) || (c =? GREATER))%N) (lit s) = true ->
             ~ In NEWLINE (lit s) /\ ~ In GREATER (lit s)).
  { intros s H. rewrite forallb_forall in H.
    split; intros Hin; specialize (H _ Hin); discriminate H. }
  assert (H : Forall (fun seg =>
            shiftable (-2500) (seg_start seg)
            /\ shiftable (-2500) (seg_end seg)
            /\ ~ In NEWLINE (seg_text seg)
            /\ ~ In GREATER (seg_text seg)) segments).
  { constructor; [|constructor; [|constructor]].
    - split; [|split];
        [apply S; [discriminate | vm_compute; discriminate
                   | vm_compute; discriminate] ..
        | apply (T "Hello world"%string); reflexivity].
    - split; [|split];
        [apply S; [discriminate | vm_compute; discriminate
                   | vm_compute; discriminate] ..
        | apply (T "Goodbye"%string); reflexivity]. }
  split; [exact H|]. split; [exact (shift_generated_track segments (-2500) H)|].
  vm_compute. reflexivity.
Defined.


(** ** The translation merge: answers in the requested format *)






































(** X12.  Whatever the answer, the merge returns exactly as many segments
    as it was given, and every one of them is an input segment or the
    translation of one: its id and timing are those of an input segment,
    never made up. *)
Theorem translate_keeps_count_and_timing (segments : list segment)
    (content : jstring) :
  length (_translateAllSegments segments content) = length segments
  /\ Forall (fun t => exists seg,
                        In seg segments
                        /\ seg_id t = seg_id seg
                        /\ seg_start t = seg_start seg
                        /\ seg_end t = seg_end seg
                        /\ (t = seg \/ exists text, t = translated seg text))
       (_translateAllSegments segments content).
Proof.
  pose proof (parse_response_origin segments content) as Ho.
  unfold _translateAllSegments.
  destruct (Nat.eqb_spec (length (parse_response segments content))
              (length segments)) as [E|E]; cbn [negb].
  - split; [exact E|]. eapply Forall_impl; [|exact Ho].
    intros t (seg & text & Hin & ->). exists seg. cbn. eauto 8.
  - split; [apply mapi_length|]. apply mapi_from_Forall.
    intros seg k Hin. destruct (nth_error _ k) as [t|] eqn:Et.
    + rewrite Forall_forall in Ho. apply nth_error_In in Et.
      destruct (Ho t Et) as (seg' & text & Hin' & ->).
      exists seg'. cbn. eauto 8.
    + exists seg. eauto 8.
Qed.

(** ** The segments handed to the writer *)

Lemma processed_at (tr : transcription) (i : nat) (seg : segment) :
  nth_error (_processSegments tr) i = Some seg ->
  seg_id seg = Z.of_nat i + 1 /\ tidy (seg_text seg).
Proof.
  unfold _processSegments.
  assert (F : nth_error [fallback_segment tr] i = Some seg ->
              seg_id seg = Z.of_nat i + 1 /\ tidy (seg_text seg)).
  { destruct i as [|[|i]]; try discriminate. intros E. injection E as <-.
    split; [reflexivity | apply trim_tidy]. }
  destruct (tr_segments tr) as [[|r raw]|]; try exact F.
  rewrite mapi_nth. destruct (nth_error (r :: raw) i) as [r'|]; [|discriminate].
  intros E. injection E as <-. split; [reflexivity | apply trim_tidy].
Qed.

Lemma processed_nonempty (tr : transcription) : _processSegments tr <> [].
Proof.
  unfold _processSegments. destruct (tr_segments tr) as [[|r raw]|]; discriminate.
Qed.



(** X14.  The track written for a transcription is never empty, and the
    sequence number the writer prints on each block is the id the segment
    was given when the transcription was processed. *)
Theorem written_numbers_are_ids (tr : transcription) :
  let segments := _processSegments tr in
  _generateSRT segments <> []
  /\ forall i seg,
       nth_error segments i = Some seg ->
       nth_error (mapi srtBlock segments) i
       = Some (join [NEWLINE]
                 (block_lines _formatSRTTimestamp seg (seg_id seg))).
Proof.
  cbv zeta. split.
  - pose proof (processed_nonempty tr) as Hne.
    destruct (_processSegments tr) as [|seg segs]; [congruence|].
    unfold _generateSRT, mapi. cbn [mapi_from]. rewrite join_cons.
    unfold srtBlock. cbn [app]. rewrite join_cons.
    change (Z.of_nat 0 + 1) with 1. change (ToString 1) with [49%N].
    discriminate.
  - intros i seg Hi. rewrite mapi_nth, Hi. cbn [option_map].
    destruct (processed_at tr i seg Hi) as [-> _]. reflexivity.
Qed.

Lemma written_numbers_are_ids_witness :
  nth_error (_processSegments RAW_SAMPLE) 1
  = Some (mkSegment 2 5 8 (lit "Goodbye.") (Some []) None)
  /\ nth_error (mapi srtBlock (_processSegments RAW_SAMPLE)) 1
     = Some (lit "2" ++ [NEWLINE] ++ lit "00:00:05,000 --> 00:00:08,000"
               ++ [NEWLINE] ++ lit "Goodbye." ++ [NEWLINE]).
Proof.
  assert (E1 : nth_error (_processSegments RAW_SAMPLE) 1
               = Some (mkSegment 2 5 8 (lit "Goodbye.") (Some []) None))
    by reflexivity.
  split; [exact E1|].
  exact (proj2 (written_numbers_are_ids RAW_SAMPLE) 1%nat _ E1).
Defined.
